(** * A shallow embedding of srt-to-praat.py

    The script converts SRT subtitles to a Praat TextGrid.  This file embeds
    the parts with logic: the numeral expansion [replace_numbers] (with the
    parts of the [inflect] library it calls), [process_text], the SRT parser
    [parse_srt], the silence reconciliation [add_silent_intervals] and the
    CSV log [write_csv].

    Conventions of the embedding:
    - Python strings are Stdlib [string]s (ASCII characters);
    - a Python exception is an [Err] of the small error monad [result];
    - a Python float is represented by its value, a rational [Q]: the
      arithmetic of [time_to_seconds] rounds every float result to the
      nearest binary64 number (ties to even), raises [OverflowError] where
      Python converts an int too large for a float, and represents the
      infinities that an overflowing float addition gives by [+/- 2^1024],
      which compares with every finite float as the infinities do (the media
      duration is a rational as well);
    - [int()] of a string has the limit of 4300 digits of Python 3.11 and
      later;
    - a [defaultdict(list)] keyed by speaker is an association list kept in
      insertion order (Python dicts iterate in insertion order). *)

From Stdlib Require Import String Ascii List ZArith QArith Bool Lia Permutation.
Import ListNotations.

Local Open Scope string_scope.

(* ------------------------------------------------------------------ *)
(** ** Exceptions *)

Inductive exn : Type :=
| ValueError
| IndexError
| OverflowError
| NumOutOfRangeError.

Inductive result (A : Type) : Type :=
| Ok (a : A)
| Err (e : exn).
Arguments Ok {A} a.
Arguments Err {A} e.

Definition bind {A B} (r : result A) (k : A -> result B) : result B :=
  match r with
  | Ok a => k a
  | Err e => Err e
  end.

Notation "x <- r ;; k" := (bind r (fun x => k))
  (at level 61, r at next level, right associativity).

(* ------------------------------------------------------------------ *)
(** ** Characters and small string helpers *)

Definition is_digit (c : ascii) : bool :=
  let n := nat_of_ascii c in (48 <=? n)%nat && (n <=? 57)%nat.

Definition is_upper (c : ascii) : bool :=
  let n := nat_of_ascii c in (65 <=? n)%nat && (n <=? 90)%nat.

(** [str.isspace] and the regex class [\s] on ASCII: space, [\t\n\v\f\r]
    and the separators [\x1c]-[\x1f]. *)
Definition is_space (c : ascii) : bool :=
  let n := nat_of_ascii c in
  (n =? 32)%nat || ((9 <=? n)%nat && (n <=? 13)%nat)
  || ((28 <=? n)%nat && (n <=? 31)%nat).

Definition digit_val (c : ascii) : N := N.of_nat (nat_of_ascii c - 48).

(** Maximal prefix of characters satisfying [p], and the rest. *)
Fixpoint span (p : ascii -> bool) (s : string) : string * string :=
  match s with
  | EmptyString => (EmptyString, EmptyString)
  | String c s' =>
      if p c then let (a, r) := span p s' in (String c a, r)
      else (EmptyString, s)
  end.

Definition span_digits := span is_digit.

Fixpoint digits_value_acc (acc : N) (s : string) : N :=
  match s with
  | EmptyString => acc
  | String c s' => digits_value_acc (acc * 10 + digit_val c)%N s'
  end.

(** [int(ds)] for a string of decimal digits. *)
Definition digits_value (s : string) : N := digits_value_acc 0%N s.

Fixpoint lstrip (s : string) : string :=
  match s with
  | EmptyString => EmptyString
  | String c s' => if is_space c then lstrip s' else s
  end.

Fixpoint rstrip (s : string) : string :=
  match s with
  | EmptyString => EmptyString
  | String c s' =>
      let r := rstrip s' in
      if is_space c && String.eqb r EmptyString then EmptyString
      else String c r
  end.

(** [str.strip()] *)
Definition strip (s : string) : string := rstrip (lstrip s).

(** [int(s)] on a string, base 10: surrounding whitespace, an optional sign,
    then digits with single underscores between digits. *)
Fixpoint udigits (prev_digit : bool) (acc : N) (s : string) : option N :=
  match s with
  | EmptyString => if prev_digit then Some acc else None
  | String c s' =>
      if is_digit c then udigits true (acc * 10 + digit_val c)%N s'
      else if Ascii.eqb c "_"%char && prev_digit then udigits false acc s'
      else None
  end.

(** [sys.get_int_max_str_digits()]: [int()] refuses a string of more
    digits with [ValueError]. *)
Definition int_max_str_digits : nat := 4300.

Fixpoint count_digits (s : string) : nat :=
  match s with
  | EmptyString => 0
  | String c s' => (if is_digit c then 1 else 0) + count_digits s'
  end.

Definition py_int (s : string) : option Z :=
  if (int_max_str_digits <? count_digits s)%nat then None else
  match strip s with
  | String c t =>
      if Ascii.eqb c "-"%char then option_map (fun n => (- Z.of_N n)%Z) (udigits false 0 t)
      else if Ascii.eqb c "+"%char then option_map Z.of_N (udigits false 0 t)
      else option_map Z.of_N (udigits false 0 (String c t))
  | EmptyString => None
  end.

(** Splitting at the non-overlapping leftmost matches of a separator
    pattern; [sepm s] returns the text after a separator match at the start
    of [s] (every match is non-empty). *)
Fixpoint split_by_aux (sepm : string -> option string) (fuel : nat) (s : string)
    : list string :=
  match fuel with
  | O => [s]
  | S f =>
      match s with
      | EmptyString => [EmptyString]
      | String c s' =>
          match sepm s with
          | Some rest => EmptyString :: split_by_aux sepm f rest
          | None =>
              match split_by_aux sepm f s' with
              | x :: xs => String c x :: xs
              | [] => [String c EmptyString]
              end
          end
      end
  end.

Definition split_by (sepm : string -> option string) (s : string) : list string :=
  split_by_aux sepm (String.length s) s.

(** [s.split(sep)] for a non-empty separator. *)
Definition split_sep (sep s : string) : list string :=
  split_by (fun t => if String.prefix sep t
                     then Some (substring (String.length sep) (String.length t) t)
                     else None) s.

(** [sep.join(xs)] *)
Fixpoint join (sep : string) (xs : list string) : string :=
  match xs with
  | [] => EmptyString
  | [x] => x
  | x :: xs' => x ++ sep ++ join sep xs'
  end.

(* ------------------------------------------------------------------ *)
(** ** [re.sub] with a replacement function

    A pattern is embedded as a matcher: [m s] tries the pattern at the
    start of [s] and returns the replacement (the replacement function may
    raise) and the rest of [s] after the match.  [re_sub] scans left to
    right, replacing non-overlapping leftmost matches, as [re.sub] does for
    patterns that never match the empty string. *)

Definition matcher := string -> option (result string * string).

Fixpoint sub_scan (m : matcher) (fuel : nat) (s : string) : result string :=
  match fuel with
  | O => Ok s
  | S f =>
      match s with
      | EmptyString => Ok EmptyString
      | String c s' =>
          match m s with
          | Some (r, rest) => x <- r ;; y <- sub_scan m f rest ;; Ok (x ++ y)
          | None => y <- sub_scan m f s' ;; Ok (String c y)
          end
      end
  end.

Definition re_sub (m : matcher) (s : string) : result string :=
  sub_scan m (String.length s) s.

(* ------------------------------------------------------------------ *)
(** ** The parts of the [inflect] library the script calls

    [inflect.engine().number_to_words] and [ordinal], for non-negative
    integers, with the default arguments ([andword = "and"], [group = 0],
    [comma = ","]).  The library builds the words from the right, three
    digits at a time ([hundfn]), then the remaining one or two leading
    digits ([tensub]/[unitsub]), and cleans the text with a few regular
    expressions. *)

Module Inflect.

Definition unit_w (d : N) : string :=
  match d with
  | 1 => "one" | 2 => "two" | 3 => "three" | 4 => "four" | 5 => "five"
  | 6 => "six" | 7 => "seven" | 8 => "eight" | 9 => "nine" | _ => ""
  end%N.

Definition teen_w (d : N) : string :=
  match d with
  | 0 => "ten" | 1 => "eleven" | 2 => "twelve" | 3 => "thirteen"
  | 4 => "fourteen" | 5 => "fifteen" | 6 => "sixteen" | 7 => "seventeen"
  | 8 => "eighteen" | _ => "nineteen"
  end%N.

Definition ten_w (d : N) : string :=
  match d with
  | 2 => "twenty" | 3 => "thirty" | 4 => "forty" | 5 => "fifty"
  | 6 => "sixty" | 7 => "seventy" | 8 => "eighty" | 9 => "ninety" | _ => ""
  end%N.

Definition mill : list string :=
  [" "; " thousand"; " million"; " billion"; " trillion"; " quadrillion";
   " quintillion"; " sextillion"; " septillion"; " octillion";
   " nonillion"; " decillion"].

(** [millfn]: raises [NumOutOfRangeError] past the table. *)
Definition millfn (ind : nat) : result string :=
  match nth_error mill ind with
  | Some w => Ok w
  | None => Err NumOutOfRangeError
  end.

(** [tenfn]; its teen branch indexes [mill] directly ([IndexError]). *)
Definition tenfn (tens units : N) (mindex : nat) : result string :=
  if negb (tens =? 1)%N then
    m <- millfn mindex ;;
    Ok (ten_w tens
        ++ (if negb (tens =? 0)%N && negb (units =? 0)%N then "-" else "")
        ++ unit_w units ++ m)
  else
    match nth_error mill mindex with
    | Some m => Ok (teen_w units ++ m)
    | None => Err IndexError
    end.

Definition hundfn (hundreds tens units : N) (mindex : nat) : result string :=
  if negb (hundreds =? 0)%N then
    let andword :=
      if negb (tens =? 0)%N || negb (units =? 0)%N then " and " else "" in
    t <- tenfn tens units 0 ;;
    m <- millfn mindex ;;
    Ok (unit_w hundreds ++ " hundred" ++ andword ++ t ++ m ++ ", ")
  else if negb (tens =? 0)%N || negb (units =? 0)%N then
    t <- tenfn tens units 0 ;;
    m <- millfn mindex ;;
    Ok (t ++ m ++ ", ")
  else Ok "".

Definition unitfn (units : N) (mindex : nat) : result string :=
  m <- millfn mindex ;; Ok (unit_w units ++ m).

(** Decimal digits of [n], least significant first. *)
Fixpoint digits_rev (fuel : nat) (n : N) : list N :=
  match fuel with
  | O => []
  | S f => if (n =? 0)%N then [] else (n mod 10)%N :: digits_rev f (n / 10)
  end.

(** The [while THREE_DIGITS_WORD] loop followed by [TWO_DIGITS_WORD] and
    [ONE_DIGIT_WORD]: the group of index [i] (from the right) uses
    [mill_count = i]; the text of more significant digits comes first. *)
Fixpoint enword_aux (i : nat) (rd : list N) : result string :=
  match rd with
  | u :: t :: h :: rest =>
      g <- hundfn h t u i ;;
      pre <- enword_aux (S i) rest ;;
      Ok (pre ++ g)
  | [u; t] => x <- tenfn t u i ;; Ok (x ++ ", ")
  | [u] => x <- unitfn u i ;; Ok (x ++ ", ")
  | [] => Ok ""
  end.

(** [enword(num, 0)] *)
Definition enword (n : N) : result string :=
  if (n =? 0)%N then Ok "zero"
  else if (n =? 1)%N then Ok "one"
  else enword_aux 0 (digits_rev (N.size_nat n) n).

Definition span_space := span is_space.

(** [WHITESPACES_COMMA = \s+,] replaced by [","] *)
Definition m_ws_comma : matcher := fun s =>
  match s with
  | String c _ =>
      if is_space c then
        match span_space s with
        | (_, String d r) => if Ascii.eqb d ","%char then Some (Ok ",", r) else None
        | _ => None
        end
      else None
  | EmptyString => None
  end.

(** [COMMA_WORD = , (\S+)\s+\Z] replaced by [" and \1"] *)
Definition m_comma_word : matcher := fun s =>
  match s with
  | String c1 (String c2 r) =>
      if Ascii.eqb c1 ","%char && Ascii.eqb c2 " "%char then
        match span (fun c => negb (is_space c)) r with
        | (EmptyString, _) => None
        | (w, rest) =>
            match span_space rest with
            | (String _ _, EmptyString) => Some (Ok (" and " ++ w), EmptyString)
            | _ => None
            end
        end
      else None
  | _ => None
  end.

(** [WHITESPACES = \s+] replaced by [" "] *)
Definition m_whitespaces : matcher := fun s =>
  match s with
  | String c _ =>
      if is_space c then let (_, r) := span_space s in Some (Ok " ", r)
      else None
  | EmptyString => None
  end.

(** [if chunk[-2:] == ", ": chunk = chunk[:-2]] *)
Definition drop_comma_space (s : string) : string :=
  let n := String.length s in
  if (2 <=? n)%nat && String.eqb (substring (n - 2) 2 s) ", "
  then substring 0 (n - 2) s else s.

(** [_sub_ord]: the ordinal suffixes, in the order of the [ordinal] dict. *)
Definition ordinal_suff : list (string * string) :=
  [("ty", "tieth"); ("one", "first"); ("two", "second"); ("three", "third");
   ("five", "fifth"); ("eight", "eighth"); ("nine", "ninth");
   ("twelve", "twelfth")].

Definition ends_with (suf s : string) : bool :=
  let n := String.length s in
  let k := String.length suf in
  (k <=? n)%nat && String.eqb (substring (n - k) k s) suf.

Fixpoint sub_ord_aux (tbl : list (string * string)) (val : string) : string :=
  match tbl with
  | [] => val ++ "th"
  | (w, o) :: tbl' =>
      if ends_with w val
      then substring 0 (String.length val - String.length w) val ++ o
      else sub_ord_aux tbl' val
  end.

Definition sub_ord (val : string) : string := sub_ord_aux ordinal_suff val.

Definition map_last (f : string -> string) (xs : list string) : list string :=
  match rev xs with
  | [] => []
  | x :: r => rev r ++ [f x]
  end.

(** [number_to_words(num)]; [myord] is set when the argument is the string
    [ordinal(num)], i.e. ends in st/nd/rd/th. *)
Definition number_to_words_gen (myord : bool) (n : N) : result string :=
  chunk <- enword n ;;
  let chunk := drop_comma_space chunk in
  chunk <- re_sub m_ws_comma chunk ;;
  chunk <- re_sub m_comma_word chunk ;;
  chunk <- re_sub m_whitespaces chunk ;;
  let chunk := strip chunk in
  let numchunks := split_sep ", " chunk in
  let numchunks := if myord then map_last sub_ord numchunks else numchunks in
  Ok (join ", " numchunks).

Definition number_to_words (n : N) : result string := number_to_words_gen false n.

(** [number_to_words(ordinal(num))]: [ordinal] appends a suffix to the
    digits, which [number_to_words] strips again before turning the last
    word into its ordinal. *)
Definition ordinal_words (n : N) : result string := number_to_words_gen true n.

End Inflect.

(* ------------------------------------------------------------------ *)
(** ** [replace_numbers] (lines 84-154)

    Each pass is a matcher for its pattern and the replacement function of
    the source.  [\d+] is greedy; in every pattern below it is followed by a
    non-digit, so the match takes the maximal run of digits. *)

Definition starts_with (p s : string) : bool := String.prefix p s.

Definition after (p s : string) : string :=
  substring (String.length p) (String.length s) s.

(** [int(d)] for a group [d] of digits. *)
Definition int_of_digits (d : string) : result N :=
  if (int_max_str_digits <? String.length d)%nat then Err ValueError
  else Ok (digits_value d).

(** Step 1: [(\d+)% to (\d+)%] and [replace_percentage_range] *)
Definition m_percentage_range : matcher := fun s =>
  let (d1, r1) := span_digits s in
  if String.eqb d1 "" then None
  else if negb (starts_with "% to " r1) then None
  else let (d2, r2) := span_digits (after "% to " r1) in
  if String.eqb d2 "" then None
  else match r2 with
       | String c r3 =>
           if Ascii.eqb c "%"%char then
             Some (n1 <- int_of_digits d1 ;;
                   w1 <- Inflect.number_to_words n1 ;;
                   n2 <- int_of_digits d2 ;;
                   w2 <- Inflect.number_to_words n2 ;;
                   Ok (w1 ++ " to " ++ w2 ++ " percent"), r3)
           else None
       | EmptyString => None
       end.

(** Step 2: [(\d+)%] and [replace_percentages] *)
Definition m_percentages : matcher := fun s =>
  let (d, r) := span_digits s in
  if String.eqb d "" then None
  else match r with
       | String c r' =>
           if Ascii.eqb c "%"%char then
             Some (n <- int_of_digits d ;;
                   w <- Inflect.number_to_words n ;;
                   Ok (w ++ " percent"), r')
           else None
       | EmptyString => None
       end.

Definition is_ord_suffix (a b : ascii) : bool :=
  match String.eqb (String a (String b EmptyString)) with
  | f => f "st" || f "nd" || f "rd" || f "th"
  end.

(** Step 3: [(\d+)(st|nd|rd|th)] and [replace_ordinal_numbers] *)
Definition m_ordinal_numbers : matcher := fun s =>
  let (d, r) := span_digits s in
  if String.eqb d "" then None
  else match r with
       | String a (String b r') =>
           if is_ord_suffix a b
           then Some (Inflect.ordinal_words (digits_value d), r')
           else None
       | _ => None
       end.

(** [convert_currency]: [f"{currency} dollars"] with [currency] the digit
    group of the match. *)
Definition convert_currency (currency : string) : result string :=
  Ok (currency ++ " dollars").

(** Step 4: [\$(\d+)] *)
Definition m_currency : matcher := fun s =>
  match s with
  | String c s' =>
      if Ascii.eqb c "$"%char then
        let (d, r) := span_digits s' in
        if String.eqb d "" then None else Some (convert_currency d, r)
      else None
  | EmptyString => None
  end.

(** [four_digit_number] *)
Definition four_digit_number (four_digit : N) : result string :=
  if (four_digit mod 1000 =? 0)%N then Inflect.number_to_words four_digit
  else
    let first_part := (four_digit / 100)%N in
    let second_part := (four_digit mod 100)%N in
    if negb (second_part =? 0)%N then
      a <- Inflect.number_to_words first_part ;;
      b <- Inflect.number_to_words second_part ;;
      Ok (a ++ " " ++ b)
    else
      a <- Inflect.number_to_words first_part ;;
      Ok (a ++ " hundred").

(** Step 5: [\d{4}] (no anchors: any four consecutive digits) *)
Definition m_four_digit : matcher := fun s =>
  match s with
  | String a (String b (String c (String d r))) =>
      if is_digit a && is_digit b && is_digit c && is_digit d
      then Some (four_digit_number
                   (digits_value (String a (String b (String c (String d EmptyString))))), r)
      else None
  | _ => None
  end.

(** [str.replace("y", "ie")] *)
Fixpoint replace_y (s : string) : string :=
  match s with
  | EmptyString => EmptyString
  | String c s' =>
      if Ascii.eqb c "y"%char then "ie" ++ replace_y s' else String c (replace_y s')
  end.

(** [re.match(r'^\d0s$', num_str)] *)
Definition is_decade (num_str : string) : bool :=
  match num_str with
  | String a (String b (String c EmptyString)) =>
      is_digit a && Ascii.eqb b "0"%char && Ascii.eqb c "s"%char
  | _ => false
  end.

(** [replace_number_match]; [int(num_str)] raises [ValueError] on a
    match that ends in [s]. *)
Definition replace_number_match (num_str : string) : result string :=
  if is_decade num_str then
    decade <- Inflect.number_to_words (digits_value (substring 0 2 num_str)) ;;
    Ok (replace_y decade ++ "s")
  else match py_int num_str with
       | Some z => Inflect.number_to_words (Z.to_N z)
       | None => Err ValueError
       end.

(** Step 6: [\d+s?] *)
Definition m_number : matcher := fun s =>
  let (d, r) := span_digits s in
  if String.eqb d "" then None
  else match r with
       | String c r' =>
           if Ascii.eqb c "s"%char
           then Some (replace_number_match (d ++ "s"), r')
           else Some (replace_number_match d, r)
       | EmptyString => Some (replace_number_match d, r)
       end.

Definition replace_numbers (text : string) (convert_numbers : bool) : result string :=
  if negb convert_numbers then Ok text
  else
    text <- re_sub m_percentage_range text ;;
    text <- re_sub m_percentages text ;;
    text <- re_sub m_ordinal_numbers text ;;
    text <- re_sub m_currency text ;;
    text <- re_sub m_four_digit text ;;
    text <- re_sub m_number text ;;
    Ok text.

(* ------------------------------------------------------------------ *)
(** ** [process_text] (lines 156-169) *)

(** [re.sub(r'(?<=[A-Z])(?=[A-Z])', ' ', text)] *)
Fixpoint split_upper (s : string) : string :=
  match s with
  | String a ((String b _) as s') =>
      if is_upper a && is_upper b then String a (String " "%char (split_upper s'))
      else String a (split_upper s')
  | _ => s
  end.

Fixpoint has_digit (s : string) : bool :=
  match s with
  | EmptyString => false
  | String c s' => is_digit c || has_digit s'
  end.

Fixpoint has_upper_run (s : string) : bool :=
  match s with
  | String a ((String b _) as s') => (is_upper a && is_upper b) || has_upper_run s'
  | _ => false
  end.

(** [re.search(r'\d|[A-Z]{2,}', original_text)] *)
Definition needs_record (s : string) : bool := has_digit s || has_upper_run s.

(** A row [[timestamp, original_text, text]] of [changes_list]. *)
Record ChangeRecord := mkChange {
  timestamp : string;
  originalText : string;
  processedText : string
}.

(** [process_text text timestamp changes_list convert_numbers]: returns the
    processed text and the list [changes_list] after the call. *)
Definition process_text (text timestamp : string) (changes_list : list ChangeRecord)
    (convert_numbers : bool) : result (string * list ChangeRecord) :=
  let original_text := text in
  text <- replace_numbers text convert_numbers ;;
  let text := if convert_numbers then split_upper text else text in
  let changes_list :=
    if needs_record original_text
    then (changes_list ++ [mkChange timestamp original_text text])%list
    else changes_list in
  Ok (text, changes_list).

(* ------------------------------------------------------------------ *)
(** ** Intervals and [add_silent_intervals] (lines 21-28, 189-219) *)

Record Interval := mkInterval {
  start : Q;
  end_ : Q;
  text : string
}.

Definition Qltb (x y : Q) : bool := negb (Qle_bool y x).

(** [intervals.sort(key=lambda x: x.start)]: a stable sort by start. *)
Fixpoint insert_by_start (x : Interval) (l : list Interval) : list Interval :=
  match l with
  | [] => [x]
  | y :: l' => if Qle_bool (start x) (start y) then x :: l else y :: insert_by_start x l'
  end.

Fixpoint sort_by_start (l : list Interval) : list Interval :=
  match l with
  | [] => []
  | x :: l' => insert_by_start x (sort_by_start l')
  end.

Definition silent (s e : Q) : Interval := mkInterval s e "".

(** The loop over [range(len(intervals))]: each interval, followed by a
    silent interval when the next one starts after it ends. *)
Fixpoint fill_gaps (intervals : list Interval) : list Interval :=
  match intervals with
  | [] => []
  | cur :: rest =>
      cur :: ((match rest with
               | nxt :: _ =>
                   if Qltb (end_ cur) (start nxt) then [silent (end_ cur) (start nxt)] else []
               | [] => []
               end) ++ fill_gaps rest)%list
  end.

(** The body of the loop for one speaker; [intervals[0]] on an empty list
    raises [IndexError]. *)
Definition add_silent_speaker (intervals : list Interval) (media_duration : Q)
    : result (list Interval) :=
  let intervals := sort_by_start intervals in
  match intervals with
  | [] => Err IndexError
  | first :: _ =>
      let lst := last intervals first in
      Ok ((if Qltb 0 (start first) then [silent 0 (start first)] else [])
          ++ fill_gaps intervals
          ++ (if Qltb (end_ lst) media_duration then [silent (end_ lst) media_duration] else []))%list
  end.

Definition SpeakerMap := list (string * list Interval).

Fixpoint add_silent_intervals (speaker_intervals : SpeakerMap) (media_duration : Q)
    : result SpeakerMap :=
  match speaker_intervals with
  | [] => Ok []
  | (speaker, intervals) :: rest =>
      out <- add_silent_speaker intervals media_duration ;;
      rest' <- add_silent_intervals rest media_duration ;;
      Ok ((speaker, out) :: rest')
  end.

(* ------------------------------------------------------------------ *)
(** ** [time_to_seconds] and [parse_srt] (lines 171-176, 221-273) *)

(** Binary64 rounding: the nearest number [m * 2^e] with [|m| < 2^53] and
    [e >= -1074], ties to the even [m]; [Overflow] when that rounded
    magnitude is [2^1024] or more. *)

(** The integer nearest to [n / d] for [d > 0], ties to even. *)
Definition round_div (n d : Z) : Z :=
  let q := (n / d)%Z in
  match Z.compare (2 * (n mod d)) d with
  | Lt => q
  | Gt => (q + 1)%Z
  | Eq => if Z.even q then q else (q + 1)%Z
  end.

(** [2^e] for any integer [e]. *)
Definition pow2 (e : Z) : Q :=
  if (0 <=? e)%Z then inject_Z (2 ^ e) else Qmake 1 (Z.to_pos (2 ^ (- e))).

(** For [a, d > 0], the [k] with [2^k <= a / d < 2^(k+1)]. *)
Definition ilog2_frac (a d : Z) : Z :=
  let k := (Z.log2 a - Z.log2 d)%Z in
  if (0 <=? k)%Z then (if (a <? d * 2 ^ k)%Z then (k - 1)%Z else k)
  else (if (a * 2 ^ (- k) <? d)%Z then (k - 1)%Z else k).

(** [a / d * 2^(-e)] rounded to an integer. *)
Definition scaled_round (a d e : Z) : Z :=
  if (0 <=? e)%Z then round_div a (d * 2 ^ e) else round_div (a * 2 ^ (- e)) d.

Inductive rounded : Type :=
| Finite (q : Q)
| Overflow.

Definition round_binary64 (x : Q) : rounded :=
  let n := Qnum x in
  let d := Zpos (Qden x) in
  if (n =? 0)%Z then Finite 0
  else
    let a := Z.abs n in
    let e := Z.max (ilog2_frac a d - 52) (-1074) in
    let m := scaled_round a d e in
    if (1024 <=? Z.log2 m + e)%Z then Overflow
    else Finite (Qred (inject_Z (Z.sgn n * m) * pow2 e)).

(** [float(n)] of an int, as in an int operand of [/] or [+] with a float:
    [OverflowError] when the rounded value is not finite. *)
Definition float_of_int (n : Z) : result Q :=
  match round_binary64 (inject_Z n) with
  | Finite q => Ok q
  | Overflow => Err OverflowError
  end.

(** The value standing for [float('inf')]. *)
Definition inf_value : Q := inject_Z (2 ^ 1024).

(** The float result of an operation whose exact value is [x]; an overflow
    gives an infinity, no exception. *)
Definition float_result (x : Q) : Q :=
  match round_binary64 x with
  | Finite q => q
  | Overflow => if Qle_bool 0 x then inf_value else - inf_value
  end.

(** [int(hours) * 3600 + int(minutes) * 60 + int(seconds)
    + int(milliseconds) / 1000.0]: the int sum is exact; the right operand
    [int(milliseconds) / 1000.0] is evaluated before the addition converts
    the int sum to a float. *)
Definition time_to_seconds (time_str : string) : result Q :=
  match split_sep ":" time_str with
  | [hours; minutes; seconds] =>
      match split_sep "," seconds with
      | [seconds; milliseconds] =>
          match py_int hours, py_int minutes, py_int seconds, py_int milliseconds with
          | Some h, Some m, Some s, Some ms =>
              msf <- float_of_int ms ;;
              let frac := float_result (msf / 1000) in
              total <- float_of_int (h * 3600 + m * 60 + s) ;;
              Ok (float_result (total + frac))
          | _, _, _, _ => Err ValueError
          end
      | _ => Err ValueError
      end
  | _ => Err ValueError
  end.

(** The one-character string [\n]. *)
Definition newline : string := String "010"%char EmptyString.

(** [re.split(r'\n\s*\n', ...)]: a newline, then the greedy [\s*] backed
    off to the last newline of the whitespace run. *)
Fixpoint last_nl_rest (s : string) : option string :=
  match s with
  | EmptyString => None
  | String c s' =>
      match last_nl_rest s' with
      | Some r => Some r
      | None => if Ascii.eqb c "010"%char then Some s' else None
      end
  end.

Definition block_sep (s : string) : option string :=
  match s with
  | String c r =>
      if Ascii.eqb c "010"%char then
        let (ws, tl) := span is_space r in
        option_map (fun k => (k ++ tl)%string) (last_nl_rest ws)
      else None
  | EmptyString => None
  end.

Definition split_blocks (s : string) : list string := split_by block_sep s.

(** [re.match] of the speaker pattern of line 253 on [speaker_text]: an
    opening bracket, a non-empty run of characters other than a closing
    bracket (the speaker), a closing bracket, a colon and a space, then the
    rest of the line (the text). *)
Definition speaker_match (s : string) : option (string * string) :=
  match s with
  | String c r =>
      if Ascii.eqb c "["%char then
        match span (fun d => negb (Ascii.eqb d "]"%char)) r with
        | (EmptyString, _) => None
        | (sp, r2) =>
            if String.prefix "]: " r2
            then Some (sp, fst (span (fun d => negb (Ascii.eqb d "010"%char)) (after "]: " r2)))
            else None
        end
      else None
  | EmptyString => None
  end.

(** [speaker_intervals[speaker].append(iv)] on a [defaultdict(list)]. *)
Fixpoint append_interval (speaker : string) (iv : Interval) (m : SpeakerMap) : SpeakerMap :=
  match m with
  | [] => [(speaker, [iv])]
  | (k, ivs) :: m' =>
      if String.eqb k speaker then (k, (ivs ++ [iv])%list) :: m'
      else (k, ivs) :: append_interval speaker iv m'
  end.

Definition ParseState := (SpeakerMap * list ChangeRecord)%type.

(** One iteration of [for block in blocks]. *)
Definition parse_block (media_duration : Q) (diarize convert_numbers : bool)
    (st : ParseState) (block : string) : result ParseState :=
  let (speaker_intervals, changes_list) := st in
  match split_sep newline block with
  | _ :: time_range :: line2 :: _ =>
      match split_sep " --> " time_range with
      | [start_time; end_time] =>
          start_seconds <- time_to_seconds start_time ;;
          end_seconds <- time_to_seconds end_time ;;
          if Qltb media_duration end_seconds then Ok st
          else
            let speaker_text := strip line2 in
            if diarize then
              match speaker_match speaker_text with
              | Some (speaker, txt) =>
                  pt <- process_text txt time_range changes_list convert_numbers ;;
                  Ok (append_interval speaker
                        (mkInterval start_seconds end_seconds (fst pt)) speaker_intervals,
                      snd pt)
              | None => Ok st
              end
            else
              pt <- process_text speaker_text time_range changes_list convert_numbers ;;
              Ok (append_interval "Speaker"
                    (mkInterval start_seconds end_seconds (fst pt)) speaker_intervals,
                  snd pt)
      | _ => Err ValueError
      end
  | _ => Ok st
  end.

Fixpoint parse_blocks (media_duration : Q) (diarize convert_numbers : bool)
    (st : ParseState) (blocks : list string) : result ParseState :=
  match blocks with
  | [] => Ok st
  | b :: bs =>
      st' <- parse_block media_duration diarize convert_numbers st b ;;
      parse_blocks media_duration diarize convert_numbers st' bs
  end.

(** The loop of [parse_srt], before the call to [add_silent_intervals]. *)
Definition collect_intervals (srt_data : string) (media_duration : Q)
    (diarize convert_numbers : bool) : result ParseState :=
  parse_blocks media_duration diarize convert_numbers ([], [])
    (split_blocks (strip srt_data)).

(** [parse_srt], with the file contents and the media duration given. *)
Definition parse_srt (srt_data : string) (media_duration : Q)
    (diarize convert_numbers : bool) : result ParseState :=
  st <- collect_intervals srt_data media_duration diarize convert_numbers ;;
  speaker_intervals <- add_silent_intervals (fst st) media_duration ;;
  Ok (speaker_intervals, snd st).

(* ================================================================== *)
(** * Properties *)

(** ** Strings without digits *)

Lemma has_digit_app : forall a b,
  has_digit (a ++ b) = has_digit a || has_digit b.
Proof.
  induction a as [|c a IH]; intros b; simpl; [reflexivity|].
  rewrite IH, orb_assoc; reflexivity.
Qed.

Lemma string_app_assoc : forall a b c, (a ++ (b ++ c) = (a ++ b) ++ c)%string.
Proof. induction a as [|x a IH]; intros b c; simpl; [reflexivity|rewrite IH; reflexivity]. Qed.

Lemma span_app : forall p s a r, span p s = (a, r) -> s = (a ++ r)%string.
Proof.
  intros p s; induction s as [|c s IH]; intros a r H; simpl in H.
  - inversion H; reflexivity.
  - destruct (p c).
    + destruct (span p s) as [a' r'] eqn:E. inversion H; subst.
      simpl; f_equal; apply IH; reflexivity.
    + inversion H; reflexivity.
Qed.

Lemma span_length : forall p s a r, span p s = (a, r) ->
  (String.length r <= String.length s)%nat.
Proof.
  intros p s a r H. apply span_app in H. subst s.
  clear. induction a; simpl; lia.
Qed.

(** A matcher that only fires at a digit or right before one. *)
Definition needs_digit (m : matcher) : Prop :=
  forall s x, m s = Some x -> has_digit s = true.

Lemma sub_scan_no_digit : forall m, needs_digit m ->
  forall f s, has_digit s = false -> sub_scan m f s = Ok s.
Proof.
  intros m Hm f; induction f as [|f IH]; intros s Hs; simpl; [reflexivity|].
  destruct s as [|c s']; [reflexivity|].
  destruct (m (String c s')) as [x|] eqn:E.
  - apply Hm in E; congruence.
  - simpl in Hs; apply orb_false_iff in Hs as [_ Hs'].
    rewrite (IH s' Hs'); reflexivity.
Qed.

Lemma span_digits_nonempty : forall s d r, span_digits s = (d, r) ->
  d <> EmptyString -> has_digit s = true.
Proof.
  intros [|c s] d r H Hd; unfold span_digits in H; simpl in H.
  - inversion H; subst; congruence.
  - destruct (is_digit c) eqn:E; simpl; [rewrite E; reflexivity|].
    inversion H; subst; congruence.
Qed.

Ltac span_case H :=
  let d := fresh "d" in let r := fresh "r" in let E := fresh "E" in
  destruct (span_digits _) as [d r] eqn:E;
  destruct (String.eqb_spec d EmptyString) as [|Hne]; [discriminate H|];
  apply (span_digits_nonempty _ _ _ E Hne).

Lemma needs_digit_percentage_range : needs_digit m_percentage_range.
Proof. intros s x H; unfold m_percentage_range in H; span_case H. Qed.

Lemma needs_digit_percentages : needs_digit m_percentages.
Proof. intros s x H; unfold m_percentages in H; span_case H. Qed.

Lemma needs_digit_ordinal_numbers : needs_digit m_ordinal_numbers.
Proof. intros s x H; unfold m_ordinal_numbers in H; span_case H. Qed.

Lemma needs_digit_number : needs_digit m_number.
Proof. intros s x H; unfold m_number in H; span_case H. Qed.

Lemma needs_digit_currency : needs_digit m_currency.
Proof.
  intros [|c s] x H; [discriminate|]; unfold m_currency in H.
  destruct (Ascii.eqb c "$"%char); [|discriminate].
  simpl; apply orb_true_iff; right.
  destruct (span_digits s) as [d r] eqn:E.
  destruct (String.eqb_spec d EmptyString) as [|Hne]; [discriminate|].
  exact (span_digits_nonempty _ _ _ E Hne).
Qed.

Lemma needs_digit_four_digit : needs_digit m_four_digit.
Proof.
  intros s x H; unfold m_four_digit in H.
  destruct s as [|a [|b [|c [|d r]]]]; try discriminate.
  destruct (is_digit a) eqn:Ea; [|discriminate].
  simpl; rewrite Ea; reflexivity.
Qed.

Lemma re_sub_no_digit : forall m, needs_digit m ->
  forall s, has_digit s = false -> re_sub m s = Ok s.
Proof. intros; apply sub_scan_no_digit; assumption. Qed.

(** ** C2: the worked examples of numeral expansion *)

(** C2: with conversion enabled, [replace_numbers] maps "2025" to
    "twenty twenty-five", "1400" to "fourteen hundred", "3000" to
    "three thousand", "45%" to "forty-five percent", "$25" to
    "twenty-five dollars", "21st" to "twenty-first" and "70s" to
    "seventies". *)
Theorem replace_numbers_examples :
  replace_numbers "2025" true = Ok "twenty twenty-five" /\
  replace_numbers "1400" true = Ok "fourteen hundred" /\
  replace_numbers "3000" true = Ok "three thousand" /\
  replace_numbers "45%" true = Ok "forty-five percent" /\
  replace_numbers "$25" true = Ok "twenty-five dollars" /\
  replace_numbers "21st" true = Ok "twenty-first" /\
  replace_numbers "70s" true = Ok "seventies".
Proof. repeat split; vm_compute; reflexivity. Qed.

(** ** C8: idempotence on digit-free output *)

(** C8: whenever [replace_numbers t] (conversion enabled) returns a text
    without digits, expanding that text again returns it unchanged. *)
Theorem replace_numbers_idempotent : forall t u,
  replace_numbers t true = Ok u -> has_digit u = false ->
  replace_numbers u true = Ok u.
Proof.
  intros t u _ Hu. unfold replace_numbers; simpl.
  rewrite (re_sub_no_digit _ needs_digit_percentage_range u Hu); simpl.
  rewrite (re_sub_no_digit _ needs_digit_percentages u Hu); simpl.
  rewrite (re_sub_no_digit _ needs_digit_ordinal_numbers u Hu); simpl.
  rewrite (re_sub_no_digit _ needs_digit_currency u Hu); simpl.
  rewrite (re_sub_no_digit _ needs_digit_four_digit u Hu); simpl.
  rewrite (re_sub_no_digit _ needs_digit_number u Hu); simpl.
  reflexivity.
Qed.

Lemma replace_numbers_idempotent_witness :
  replace_numbers "2025 and 45%" true = Ok "twenty twenty-five and forty-five percent" /\
  replace_numbers "twenty twenty-five and forty-five percent" true
    = Ok "twenty twenty-five and forty-five percent".
Proof.
  split; [vm_compute; reflexivity|].
  apply (replace_numbers_idempotent "2025 and 45%"); vm_compute; reflexivity.
Defined.

(** ** C9: digit runs longer than four *)

(** C9 (the failing input): the unanchored pattern [\d{4}] of step 5 takes
    the first four digits of "12345" and renders them year-style, and
    step 6 then renders the left-over "5"; the standard cardinal
    expansion of 12345 is a different text. *)
Theorem five_digit_run_split_by_step5 :
  replace_numbers "12345" true = Ok "twelve thirty-fourfive" /\
  Inflect.number_to_words 12345 = Ok "twelve thousand, three hundred and forty-five" /\
  replace_numbers "12345" true <> Inflect.number_to_words 12345.
Proof.
  split; [vm_compute; reflexivity|].
  split; [vm_compute; reflexivity|].
  vm_compute; congruence.
Qed.

(** ** The words produced by [inflect] contain no digits *)

Create HintDb nodigit.

Lemma has_digit_substring : forall s n k,
  has_digit (substring n k s) = true -> has_digit s = true.
Proof.
  induction s as [|c s IH]; intros n k H.
  - destruct n, k; discriminate.
  - destruct n as [|n]; simpl in *.
    + destruct k as [|k]; [discriminate|]. simpl in H.
      apply orb_true_iff in H as [H|H]; [rewrite H; reflexivity|].
      rewrite (IH O k H); apply orb_true_r.
    + rewrite (IH n k H); apply orb_true_r.
Qed.

Lemma no_digit_substring : forall s n k,
  has_digit s = false -> has_digit (substring n k s) = false.
Proof.
  intros s n k H. destruct (has_digit (substring n k s)) eqn:E; [|reflexivity].
  apply has_digit_substring in E; congruence.
Qed.

Lemma no_digit_app : forall a b,
  has_digit a = false -> has_digit b = false -> has_digit (a ++ b) = false.
Proof. intros a b Ha Hb; rewrite has_digit_app, Ha, Hb; reflexivity. Qed.

Lemma no_digit_span : forall p s a r, has_digit s = false -> span p s = (a, r) ->
  has_digit a = false /\ has_digit r = false.
Proof.
  intros p s a r Hs E. apply span_app in E; subst s.
  rewrite has_digit_app in Hs; apply orb_false_iff in Hs; exact Hs.
Qed.

#[local] Hint Resolve no_digit_substring no_digit_app : nodigit.

Lemma unit_w_no_digit : forall d, has_digit (Inflect.unit_w d) = false.
Proof.
  intros [|p]; [reflexivity|]. repeat (destruct p as [p|p|]; try reflexivity).
Qed.

Lemma teen_w_no_digit : forall d, has_digit (Inflect.teen_w d) = false.
Proof.
  intros [|p]; [reflexivity|]. repeat (destruct p as [p|p|]; try reflexivity).
Qed.

Lemma ten_w_no_digit : forall d, has_digit (Inflect.ten_w d) = false.
Proof.
  intros [|p]; [reflexivity|]. repeat (destruct p as [p|p|]; try reflexivity).
Qed.

#[local] Hint Resolve unit_w_no_digit teen_w_no_digit ten_w_no_digit : nodigit.

Lemma mill_no_digit : forall i w, nth_error Inflect.mill i = Some w -> has_digit w = false.
Proof.
  intros i w H. apply nth_error_In in H.
  assert (HF : Forall (fun w => has_digit w = false) Inflect.mill)
    by (repeat constructor).
  rewrite Forall_forall in HF; auto.
Qed.

Lemma millfn_no_digit : forall i w, Inflect.millfn i = Ok w -> has_digit w = false.
Proof.
  unfold Inflect.millfn; intros i w H.
  destruct (nth_error Inflect.mill i) eqn:E; inversion H; subst.
  eapply mill_no_digit; eassumption.
Qed.

(** Unfolds one bind of the error monad in a hypothesis. *)
Ltac bind_inv H :=
  match type of H with
  | bind ?r _ = Ok _ =>
      let x := fresh "x" in let E := fresh "E" in
      destruct r as [x|?] eqn:E; simpl in H; [|discriminate H]
  end.

Lemma tenfn_no_digit : forall t u i w, Inflect.tenfn t u i = Ok w -> has_digit w = false.
Proof.
  unfold Inflect.tenfn; intros t u i w H.
  destruct (negb (t =? 1)%N).
  - bind_inv H. inversion H; subst.
    apply millfn_no_digit in E.
    repeat apply no_digit_app; auto with nodigit.
    destruct (_ && _); reflexivity.
  - destruct (nth_error Inflect.mill i) eqn:E; inversion H; subst.
    apply mill_no_digit in E; auto with nodigit.
Qed.

Lemma unitfn_no_digit : forall u i w, Inflect.unitfn u i = Ok w -> has_digit w = false.
Proof.
  unfold Inflect.unitfn; intros u i w H. bind_inv H. inversion H; subst.
  apply millfn_no_digit in E; auto with nodigit.
Qed.

Lemma hundfn_no_digit : forall h t u i w, Inflect.hundfn h t u i = Ok w -> has_digit w = false.
Proof.
  unfold Inflect.hundfn; intros h t u i w H.
  destruct (negb (h =? 0)%N).
  - bind_inv H. bind_inv H. inversion H; subst.
    apply tenfn_no_digit in E. apply millfn_no_digit in E0.
    repeat apply no_digit_app; auto with nodigit.
    destruct (_ || _); reflexivity.
  - destruct (_ || _).
    + bind_inv H. bind_inv H. inversion H; subst.
      apply tenfn_no_digit in E. apply millfn_no_digit in E0.
      repeat apply no_digit_app; auto with nodigit.
    + inversion H; reflexivity.
Qed.

Lemma enword_aux_no_digit : forall n rd i w, (length rd <= n)%nat ->
  Inflect.enword_aux i rd = Ok w -> has_digit w = false.
Proof.
  induction n as [|n IH]; intros rd i w Hl H.
  - destruct rd; [inversion H; reflexivity|simpl in Hl; lia].
  - destruct rd as [|u [|t [|h rest]]]; simpl in H.
    + inversion H; reflexivity.
    + bind_inv H. inversion H; subst. apply unitfn_no_digit in E; auto with nodigit.
    + bind_inv H. inversion H; subst. apply tenfn_no_digit in E; auto with nodigit.
    + bind_inv H. bind_inv H. inversion H; subst.
      apply hundfn_no_digit in E. apply IH in E0; [|simpl in Hl; lia].
      auto with nodigit.
Qed.

Lemma enword_no_digit : forall n w, Inflect.enword n = Ok w -> has_digit w = false.
Proof.
  unfold Inflect.enword; intros n w H.
  destruct (n =? 0)%N; [inversion H; reflexivity|].
  destruct (n =? 1)%N; [inversion H; reflexivity|].
  eapply enword_aux_no_digit; [apply le_n|exact H].
Qed.

(** A matcher whose replacement and rest keep a digit-free text
    digit-free. *)
Definition keeps_no_digit (m : matcher) : Prop :=
  forall s r rest, has_digit s = false -> m s = Some (r, rest) ->
    (forall w, r = Ok w -> has_digit w = false) /\ has_digit rest = false.

Lemma sub_scan_keeps_no_digit : forall m, keeps_no_digit m ->
  forall f s w, has_digit s = false -> sub_scan m f s = Ok w -> has_digit w = false.
Proof.
  intros m Hm f; induction f as [|f IH]; intros s w Hs H; simpl in H.
  - inversion H; subst; assumption.
  - destruct s as [|c s']; [inversion H; reflexivity|].
    destruct (m (String c s')) as [[r rest]|] eqn:E.
    + destruct (Hm _ _ _ Hs E) as [Hr Hrest].
      bind_inv H. bind_inv H. inversion H; subst.
      apply no_digit_app; [apply Hr; reflexivity|eapply IH; eassumption].
    + bind_inv H. inversion H; subst. simpl in Hs |- *.
      apply orb_false_iff in Hs as [Hc Hs']. rewrite Hc; simpl.
      eapply IH; eassumption.
Qed.

Lemma keeps_ws_comma : keeps_no_digit Inflect.m_ws_comma.
Proof.
  intros [|c s] r rest Hs H; [discriminate|]. unfold Inflect.m_ws_comma in H.
  destruct (is_space c); [|discriminate].
  destruct (Inflect.span_space (String c s)) as [a [|d r']] eqn:E; [discriminate|].
  destruct (Ascii.eqb d ","%char); [|discriminate]. inversion H; subst.
  destruct (no_digit_span _ _ _ _ Hs E) as [_ Hr]. simpl in Hr.
  apply orb_false_iff in Hr as [_ Hr].
  split; [intros w Hw; inversion Hw; reflexivity|assumption].
Qed.

Lemma keeps_comma_word : keeps_no_digit Inflect.m_comma_word.
Proof.
  intros s r rest Hs H. unfold Inflect.m_comma_word in H.
  destruct s as [|c1 [|c2 s]]; try discriminate.
  destruct (_ && _); [|discriminate].
  simpl in Hs. apply orb_false_iff in Hs as [_ Hs]. apply orb_false_iff in Hs as [_ Hs].
  destruct (span _ s) as [a b] eqn:E.
  destruct (no_digit_span _ _ _ _ Hs E) as [Ha _].
  destruct a as [|x a']; [discriminate|].
  destruct (Inflect.span_space b) as [[|y z] [|v t]]; try discriminate.
  inversion H; subst.
  split; [intros w Hw; inversion Hw; subst; auto with nodigit|reflexivity].
Qed.

Lemma keeps_whitespaces : keeps_no_digit Inflect.m_whitespaces.
Proof.
  intros [|c s] r rest Hs H; [discriminate|]. unfold Inflect.m_whitespaces in H.
  destruct (is_space c); [|discriminate].
  destruct (Inflect.span_space (String c s)) as [a b] eqn:E. inversion H; subst.
  destruct (no_digit_span _ _ _ _ Hs E) as [_ Hb].
  split; [intros w Hw; inversion Hw; reflexivity|assumption].
Qed.

Lemma lstrip_no_digit : forall s, has_digit s = false -> has_digit (lstrip s) = false.
Proof.
  induction s as [|c s IH]; intros H; simpl; [reflexivity|].
  simpl in H; apply orb_false_iff in H as [Hc Hs].
  destruct (is_space c); [auto|simpl; rewrite Hc, Hs; reflexivity].
Qed.

Lemma rstrip_no_digit : forall s, has_digit s = false -> has_digit (rstrip s) = false.
Proof.
  induction s as [|c s IH]; intros H; simpl; [reflexivity|].
  simpl in H; apply orb_false_iff in H as [Hc Hs].
  destruct (_ && _); [reflexivity|simpl; rewrite Hc, IH; auto].
Qed.

Lemma strip_no_digit : forall s, has_digit s = false -> has_digit (strip s) = false.
Proof. intros; apply rstrip_no_digit, lstrip_no_digit; assumption. Qed.

Lemma split_by_aux_no_digit : forall sepm,
  (forall s rest, has_digit s = false -> sepm s = Some rest -> has_digit rest = false) ->
  forall f s, has_digit s = false -> Forall (fun w => has_digit w = false) (split_by_aux sepm f s).
Proof.
  intros sepm Hsep f; induction f as [|f IH]; intros s Hs; simpl.
  - constructor; [assumption|constructor].
  - destruct s as [|c s']; [constructor; [reflexivity|constructor]|].
    destruct (sepm (String c s')) as [rest|] eqn:E.
    + constructor; [reflexivity|]. apply IH. eapply Hsep; eassumption.
    + simpl in Hs; apply orb_false_iff in Hs as [Hc Hs'].
      specialize (IH s' Hs').
      destruct (split_by_aux sepm f s') as [|x xs]; [constructor; [simpl; rewrite Hc; reflexivity|constructor]|].
      inversion IH; subst. constructor; [simpl; rewrite Hc; assumption|assumption].
Qed.

Lemma split_sep_no_digit : forall sep s, has_digit s = false ->
  Forall (fun w => has_digit w = false) (split_sep sep s).
Proof.
  intros sep s Hs. apply split_by_aux_no_digit; [|assumption].
  intros t rest Ht E. destruct (String.prefix sep t); inversion E; subst.
  auto with nodigit.
Qed.

Lemma sub_ord_no_digit : forall s, has_digit s = false -> has_digit (Inflect.sub_ord s) = false.
Proof.
  intros s Hs. unfold Inflect.sub_ord.
  assert (HF : Forall (fun p => has_digit (snd p) = false) Inflect.ordinal_suff)
    by (repeat constructor).
  induction HF as [|[w o] tbl Ho _ IH]; simpl; [auto with nodigit|].
  destruct (Inflect.ends_with w s); [simpl in Ho; auto with nodigit|exact IH].
Qed.

Lemma join_no_digit : forall sep xs, has_digit sep = false ->
  Forall (fun w => has_digit w = false) xs -> has_digit (join sep xs) = false.
Proof.
  intros sep xs Hsep HF; induction HF as [|x xs Hx HF IH]; [reflexivity|].
  destruct xs as [|y ys]; [exact Hx|]. simpl join. auto with nodigit.
Qed.

Lemma map_last_no_digit : forall f xs, (forall s, has_digit s = false -> has_digit (f s) = false) ->
  Forall (fun w => has_digit w = false) xs -> Forall (fun w => has_digit w = false) (Inflect.map_last f xs).
Proof.
  intros f xs Hf HF. unfold Inflect.map_last.
  apply Forall_rev in HF. destruct (rev xs) as [|x r] eqn:E; [constructor|].
  inversion HF; subst. apply Forall_app; split.
  - apply Forall_rev; assumption.
  - constructor; [auto|constructor].
Qed.

Lemma drop_comma_space_no_digit : forall s,
  has_digit s = false -> has_digit (Inflect.drop_comma_space s) = false.
Proof.
  unfold Inflect.drop_comma_space; intros s H. destruct (_ && _); auto with nodigit.
Qed.

Lemma number_to_words_gen_no_digit : forall b n w,
  Inflect.number_to_words_gen b n = Ok w -> has_digit w = false.
Proof.
  unfold Inflect.number_to_words_gen; intros b n w H.
  bind_inv H. apply enword_no_digit in E.
  assert (H0 := drop_comma_space_no_digit _ E).
  bind_inv H. apply (sub_scan_keeps_no_digit _ keeps_ws_comma) in E0; [|assumption].
  bind_inv H. apply (sub_scan_keeps_no_digit _ keeps_comma_word) in E1; [|assumption].
  bind_inv H. apply (sub_scan_keeps_no_digit _ keeps_whitespaces) in E2; [|assumption].
  inversion H; subst. apply join_no_digit; [reflexivity|].
  assert (HS := split_sep_no_digit ", " _ (strip_no_digit _ E2)).
  destruct b; [apply map_last_no_digit; [exact sub_ord_no_digit|]|]; exact HS.
Qed.

Lemma number_to_words_no_digit : forall n w,
  Inflect.number_to_words n = Ok w -> has_digit w = false.
Proof. intros n; apply number_to_words_gen_no_digit. Qed.

Lemma ordinal_words_no_digit : forall n w,
  Inflect.ordinal_words n = Ok w -> has_digit w = false.
Proof. intros n; apply number_to_words_gen_no_digit. Qed.

Lemma four_digit_number_no_digit : forall n w,
  four_digit_number n = Ok w -> has_digit w = false.
Proof.
  unfold four_digit_number; intros n w H.
  destruct (_ =? 0)%N; [eapply number_to_words_no_digit; eassumption|].
  destruct (negb _).
  - bind_inv H. bind_inv H. inversion H; subst.
    apply number_to_words_no_digit in E, E0. auto with nodigit.
  - bind_inv H. inversion H; subst. apply number_to_words_no_digit in E. auto with nodigit.
Qed.

(** ** The currency pass and the passes before step 6 *)

(** A matcher whose rest is strictly shorter than its input. *)
Definition shrinks (m : matcher) : Prop :=
  forall s r rest, m s = Some (r, rest) -> (String.length rest < String.length s)%nat.

Lemma sub_scan_fuel : forall m, shrinks m ->
  forall f1 f2 s, (String.length s <= f1)%nat -> (String.length s <= f2)%nat ->
  sub_scan m f1 s = sub_scan m f2 s.
Proof.
  intros m Hm f1; induction f1 as [|f1 IH]; intros f2 s H1 H2.
  - destruct s; [destruct f2; reflexivity|simpl in H1; lia].
  - destruct f2 as [|f2]; [destruct s; [reflexivity|simpl in H2; lia]|].
    destruct s as [|c s']; [reflexivity|]. simpl.
    destruct (m (String c s')) as [[r rest]|] eqn:E.
    + apply Hm in E. simpl in E, H1, H2.
      rewrite (IH f2 rest) by lia; reflexivity.
    + simpl in H1, H2. rewrite (IH f2 s') by lia; reflexivity.
Qed.

Lemma shrinks_currency : shrinks m_currency.
Proof.
  intros [|c s] r rest H; [discriminate|]. unfold m_currency in H.
  destruct (Ascii.eqb c "$"%char); [|discriminate].
  destruct (span_digits s) as [d r'] eqn:E.
  destruct (String.eqb d ""); inversion H; subst.
  apply span_length in E. simpl; lia.
Qed.

(** C3 (counterexample): on "$25" the passes before step 6 produce
    "25 dollars": the currency pass only moves the dollar sign, and the
    digits it matched reach the generic step 6. *)
Lemma currency_pass_keeps_digits :
  re_sub m_percentage_range "$25" = Ok "$25" /\
  re_sub m_percentages "$25" = Ok "$25" /\
  re_sub m_ordinal_numbers "$25" = Ok "$25" /\
  re_sub m_currency "$25" = Ok "25 dollars" /\
  re_sub m_four_digit "25 dollars" = Ok "25 dollars" /\
  has_digit "25 dollars" = true.
Proof. repeat split; vm_compute; reflexivity. Qed.

(** The currency pass at a [$] followed by a maximal digit run [ds]:
    [ds ++ " dollars"], and the pass goes on after the run. *)
Lemma re_sub_currency_at : forall s ds rest,
  span_digits s = (ds, rest) -> ds <> EmptyString ->
  re_sub m_currency (String "$"%char s)
    = (y <- re_sub m_currency rest ;; Ok (ds ++ " dollars" ++ y)).
Proof.
  intros s ds rest E Hne.
  assert (Hm : m_currency (String "$"%char s) = Some (Ok (ds ++ " dollars"), rest)).
  { unfold m_currency. simpl Ascii.eqb. cbv iota beta. rewrite E.
    destruct (String.eqb_spec ds EmptyString) as [|_]; [contradiction|reflexivity]. }
  unfold re_sub. cbn [String.length sub_scan]. rewrite Hm. cbn [bind].
  rewrite (sub_scan_fuel _ shrinks_currency (String.length s) (String.length rest) rest).
  + destruct (sub_scan m_currency (String.length rest) rest); cbn [bind];
      [rewrite <- string_app_assoc; reflexivity|reflexivity].
  + apply span_length in E; exact E.
  + apply le_n.
Qed.

(** The replacements of the percentage-range, percentage, ordinal and
    four-digit passes contain no digit. *)
Lemma replacements_no_digit :
  forall m, In m [m_percentage_range; m_percentages; m_ordinal_numbers; m_four_digit] ->
  forall s r rest w, m s = Some (r, rest) -> r = Ok w -> has_digit w = false.
Proof.
  intros m Hin s r rest w Hm Hr; subst r.
  simpl in Hin. destruct Hin as [<-|[<-|[<-|[<-|[]]]]].
  + unfold m_percentage_range in Hm.
    destruct (span_digits s) as [d1 r1]; destruct (String.eqb d1 ""); [discriminate|].
    destruct (negb _); [discriminate|].
    destruct (span_digits _) as [d2 r2]; destruct (String.eqb d2 ""); [discriminate|].
    destruct r2 as [|c r3]; [discriminate|]. destruct (Ascii.eqb c _); [|discriminate].
    injection Hm as Hw Hrest. repeat bind_inv Hw. inversion Hw; subst.
    apply number_to_words_no_digit in E0, E2. repeat apply no_digit_app; auto.
  + unfold m_percentages in Hm.
    destruct (span_digits s) as [d r0]; destruct (String.eqb d ""); [discriminate|].
    destruct r0 as [|c r']; [discriminate|]. destruct (Ascii.eqb c _); [|discriminate].
    injection Hm as Hw Hrest. repeat bind_inv Hw. inversion Hw; subst.
    apply number_to_words_no_digit in E0. apply no_digit_app; auto.
  + unfold m_ordinal_numbers in Hm.
    destruct (span_digits s) as [d r0]; destruct (String.eqb d ""); [discriminate|].
    destruct r0 as [|a [|b r']]; try discriminate. destruct (is_ord_suffix a b); [|discriminate].
    injection Hm as Hw Hrest. eapply ordinal_words_no_digit; eassumption.
  + unfold m_four_digit in Hm.
    destruct s as [|a [|b [|c [|d r0]]]]; try discriminate.
    destruct (_ && _); [|discriminate].
    injection Hm as Hw Hrest. eapply four_digit_number_no_digit; eassumption.
Qed.

(** ** C4: the change log of [process_text] *)

(** C4 (code bug): "5s" contains a digit, so the claim expects a record;
    but with conversion enabled step 6 matches [\d+s?] on all of "5s",
    which is not a decade, and calls [int("5s")], which raises
    [ValueError]: [process_text] raises and no record is appended. *)
Lemma process_text_raises_on_digit_s :
  needs_record "5s" = true /\
  process_text "5s" "00:00:01,000 --> 00:00:02,000" [] true = Err ValueError /\
  ~ (exists p, process_text "5s" "00:00:01,000 --> 00:00:02,000" [] true = Ok p).
Proof.
  split; [reflexivity|]. split; [vm_compute; reflexivity|].
  intros [p H]. vm_compute in H. discriminate.
Qed.

Lemma process_text_no_conversion : forall text ts changes,
  process_text text ts changes false
  = Ok (text, if needs_record text then (changes ++ [mkChange ts text text])%list else changes).
Proof. reflexivity. Qed.



(** ** Silence reconciliation *)

Fixpoint chain (R : Interval -> Interval -> Prop) (l : list Interval) : Prop :=
  match l with
  | x :: ((y :: _) as t) => R x y /\ chain R t
  | _ => True
  end.

Definition within (D : Q) (i : Interval) : Prop :=
  (0 <= start i /\ start i <= end_ i /\ end_ i <= D)%Q.

Lemma Qltb_spec : forall x y, Qltb x y = true <-> (x < y)%Q.
Proof.
  intros x y; unfold Qltb. rewrite negb_true_iff. split; intros H.
  - apply Qnot_le_lt. intros H'. apply Qle_bool_iff in H'. congruence.
  - destruct (Qle_bool y x) eqn:E; [|reflexivity].
    apply Qle_bool_iff in E. exfalso; apply (Qlt_not_le x y); assumption.
Qed.

Lemma Qltb_false : forall x y, Qltb x y = false -> (y <= x)%Q.
Proof.
  intros x y H. apply Qnot_lt_le. intros H'. apply Qltb_spec in H'. congruence.
Qed.

Lemma In_insert_by_start : forall x y l, In x (insert_by_start y l) <-> y = x \/ In x l.
Proof.
  intros x y l; induction l as [|z l IH]; simpl; [tauto|].
  destruct (Qle_bool (start y) (start z)); simpl; [tauto|]. rewrite IH; tauto.
Qed.

Lemma In_sort_by_start : forall x l, In x (sort_by_start l) <-> In x l.
Proof.
  intros x l; induction l as [|y l IH]; simpl; [tauto|].
  rewrite In_insert_by_start, IH; tauto.
Qed.

Lemma insert_by_start_nonempty : forall x l, insert_by_start x l <> [].
Proof. intros x [|y l]; simpl; [discriminate|destruct (Qle_bool _ _); discriminate]. Qed.

Lemma sort_by_start_nonempty : forall l, l <> [] -> sort_by_start l <> [].
Proof. intros [|x l] H; [contradiction|apply insert_by_start_nonempty]. Qed.

Lemma fill_gaps_cons : forall x r, exists t, fill_gaps (x :: r) = x :: t.
Proof. intros x r; eexists; reflexivity. Qed.

Lemma fill_gaps_cons2 : forall x y r,
  fill_gaps (x :: y :: r)
  = ((x :: (if Qltb (end_ x) (start y) then [silent (end_ x) (start y)] else []))
     ++ fill_gaps (y :: r))%list.
Proof. reflexivity. Qed.

Lemma last_app_cons : forall (a : list Interval) y t d,
  last (a ++ y :: t) d = last (y :: t) d.
Proof.
  induction a as [|z a IH]; intros y t d; [reflexivity|].
  rewrite <- app_comm_cons. rewrite <- (IH y t d).
  destruct a; reflexivity.
Qed.

Lemma fill_gaps_last : forall r x d, last (fill_gaps (x :: r)) d = last (x :: r) d.
Proof.
  induction r as [|y r IH]; intros x d; [reflexivity|].
  change (last (x :: y :: r) d) with (last (y :: r) d). rewrite <- (IH y d).
  rewrite fill_gaps_cons2. destruct (fill_gaps_cons y r) as [t Ht]. rewrite Ht.
  apply last_app_cons.
Qed.

Lemma fill_gaps_contiguous : forall l,
  chain (fun a b => end_ a <= start b)%Q l ->
  chain (fun a b => end_ a == start b)%Q (fill_gaps l).
Proof.
  induction l as [|x [|y r] IH]; intros H; [exact I|exact I|].
  destruct H as [Hxy Hr]. specialize (IH Hr).
  rewrite fill_gaps_cons2. destruct (fill_gaps_cons y r) as [t Ht].
  rewrite Ht in IH |- *.
  destruct (Qltb (end_ x) (start y)) eqn:E; simpl app.
  - split; [reflexivity|]. split; [reflexivity|exact IH].
  - split; [|exact IH]. apply Qltb_false in E. apply Qle_antisym; assumption.
Qed.

Lemma fill_gaps_within : forall D l,
  Forall (within D) l -> chain (fun a b => end_ a <= start b)%Q l ->
  Forall (within D) (fill_gaps l).
Proof.
  intros D; induction l as [|x [|y r] IH]; intros HF H; [constructor|exact HF|].
  destruct H as [Hxy Hr]. inversion HF as [|? ? Hx HF']; subst.
  specialize (IH HF' Hr). cbn [fill_gaps] in IH |- *.
  inversion HF' as [|? ? Hy _]; subst.
  constructor; [exact Hx|]. destruct (Qltb (end_ x) (start y)) eqn:E; simpl; [|exact IH].
  constructor; [|exact IH].
  unfold within in *; simpl. apply Qltb_spec in E.
  destruct Hx as (Hx1 & Hx2 & Hx3); destruct Hy as (Hy1 & Hy2 & Hy3).
  split; [apply (Qle_trans _ (start x)); assumption|].
  split; [apply Qlt_le_weak; assumption|apply (Qle_trans _ (end_ y)); assumption].
Qed.

Lemma chain_app : forall R l1 l2 x y,
  chain R (l1 ++ [x]) -> R x y -> chain R (y :: l2) -> chain R (l1 ++ x :: y :: l2).
Proof.
  intros R l1; induction l1 as [|a [|b l1] IH]; intros l2 x y H1 Hxy H2.
  - simpl; split; assumption.
  - simpl in H1 |- *. destruct H1 as [Hax _]. split; [assumption|split; assumption].
  - destruct H1 as [Hab H1]. split; [exact Hab|]. apply (IH l2 x y H1 Hxy H2).
Qed.

Lemma chain_impl : forall (P : Interval -> Prop) (R R' : Interval -> Interval -> Prop) l,
  (forall a b, P a -> P b -> R a b -> R' a b) ->
  Forall P l -> chain R l -> chain R' l.
Proof.
  intros P R R' l HR; induction l as [|x [|y r] IH]; intros HF H; [exact I|exact I|].
  inversion HF as [|? ? Hx HF']; subst. inversion HF' as [|? ? Hy _]; subst.
  destruct H as [Hxy H]. split; [apply HR; assumption|apply IH; assumption].
Qed.

Lemma Qeq_to_le : forall x y, (x == y -> x <= y)%Q.
Proof. intros x y H; rewrite H; apply Qle_refl. Qed.

Lemma chain_snoc : forall R l d y, l <> [] ->
  chain R l -> R (last l d) y -> chain R (l ++ [y])%list.
Proof.
  intros R l d y; induction l as [|a [|b l] IH]; intros Hne H Hy; [contradiction| |].
  - simpl in *. split; [exact Hy|exact I].
  - destruct H as [Hab H]. change ((a :: b :: l) ++ [y])%list with (a :: ((b :: l) ++ [y]))%list.
    cbn [chain app]. split; [exact Hab|].
    apply (IH ltac:(discriminate) H Hy).
Qed.

Lemma last_default : forall (x : Interval) t d d', last (x :: t) d = last (x :: t) d'.
Proof.
  intros x t; revert x; induction t as [|y t IH]; intros x d d'; [reflexivity|].
  change (last (y :: t) d = last (y :: t) d'). apply IH.
Qed.

Lemma last_in : forall (x : Interval) t d, In (last (x :: t) d) (x :: t).
Proof.
  intros x t; revert x; induction t as [|y t IH]; intros x d; [left; reflexivity|].
  right. change (In (last (y :: t) d) (y :: t)). apply IH.
Qed.

Lemma add_silent_intervals_lookup : forall m D m' sp l out,
  add_silent_intervals m D = Ok m' -> In (sp, l) m ->
  add_silent_speaker l D = Ok out -> In (sp, out) m'.
Proof.
  induction m as [|[k ivs] m IH]; intros D m' sp l out H Hin Hl; [destruct Hin|].
  simpl in H. bind_inv H. bind_inv H. injection H as <-.
  destruct Hin as [Heq|Hin].
  - injection Heq as -> ->. rewrite Hl in E; injection E as ->. left; reflexivity.
  - right. eapply IH; eassumption.
Qed.

(** C1: for a speaker whose intervals, sorted by start, each satisfy
    [0 <= start <= end <= D] and are non-overlapping ([end] of each at most
    the [start] of the next), [add_silent_intervals] gives that speaker a
    timeline that is ordered by start, lies within [[0, D]], has
    [I[i].end <= I[i+1].start], starts at 0, ends at [D], and where each
    interval ends exactly where the next starts. *)
Theorem add_silent_intervals_timeline : forall (m : SpeakerMap) sp l D,
  In (sp, l) m -> l <> [] ->
  Forall (within D) l ->
  chain (fun a b => end_ a <= start b)%Q (sort_by_start l) ->
  exists out,
    add_silent_speaker l D = Ok out /\
    (forall m', add_silent_intervals m D = Ok m' -> In (sp, out) m') /\
    Forall (within D) out /\
    chain (fun a b => start a <= start b)%Q out /\
    chain (fun a b => end_ a <= start b)%Q out /\
    chain (fun a b => end_ a == start b)%Q out /\
    (exists first rest, out = first :: rest /\ start first == 0 /\ end_ (last out first) == D)%Q.
Proof.
  intros m sp l D Hin Hne HF Hch.
  assert (HFs : Forall (within D) (sort_by_start l)).
  { rewrite Forall_forall in HF |- *. intros x Hx. apply HF, In_sort_by_start, Hx. }
  assert (Hs := sort_by_start_nonempty l Hne).
  unfold add_silent_speaker.
  destruct (sort_by_start l) as [|f s'] eqn:Es; [contradiction|].
  set (lst := last (f :: s') f).
  assert (Hlst : within D lst) by (rewrite Forall_forall in HFs; apply HFs, last_in).
  assert (Hf : within D f) by (inversion HFs; assumption).
  destruct (fill_gaps_cons f s') as [t Ht].
  assert (HG : chain (fun a b => end_ a == start b)%Q (f :: t))
    by (rewrite <- Ht; apply fill_gaps_contiguous; exact Hch).
  assert (HGF : Forall (within D) (f :: t))
    by (rewrite <- Ht; apply fill_gaps_within; assumption).
  assert (HGl : last (f :: t) f = lst) by (rewrite <- Ht; apply fill_gaps_last).
  rewrite Ht.
  set (pre := if Qltb 0 (start f) then [silent 0 (start f)] else []).
  set (post := if Qltb (end_ lst) D then [silent (end_ lst) D] else []).
  (* the middle part followed by the trailing silence *)
  assert (HM : exists rest, ((f :: t) ++ post)%list = f :: rest /\
      chain (fun a b => end_ a == start b)%Q ((f :: t) ++ post) /\
      Forall (within D) ((f :: t) ++ post) /\
      (end_ (last ((f :: t) ++ post) f) == D)%Q).
  { subst post. destruct (Qltb (end_ lst) D) eqn:E.
    - eexists; split; [reflexivity|]. apply Qltb_spec in E.
      split; [apply chain_snoc with (d := f); [discriminate|exact HG|rewrite HGl; reflexivity]|].
      split; [apply Forall_app; split; [exact HGF|]|].
      + constructor; [|constructor]. destruct Hlst as (H1 & H2 & H3); unfold within; simpl.
        split; [apply (Qle_trans _ (start lst)); assumption|].
        split; [apply Qlt_le_weak; exact E|apply Qle_refl].
      + rewrite last_last. reflexivity.
    - exists t. rewrite app_nil_r. split; [reflexivity|]. split; [exact HG|].
      split; [exact HGF|].
      rewrite HGl. apply Qltb_false in E. destruct Hlst as (_ & _ & H3).
      apply Qle_antisym; assumption. }
  destruct HM as (rest & Hrest & HMc & HMF & HMl).
  exists ((pre ++ (f :: t) ++ post))%list.
  assert (Hall : Forall (within D) (pre ++ (f :: t) ++ post)%list /\
                 chain (fun a b => end_ a == start b)%Q (pre ++ (f :: t) ++ post) /\
                 (exists first rest', (pre ++ (f :: t) ++ post)%list = first :: rest' /\
                    start first == 0 /\
                    end_ (last (pre ++ (f :: t) ++ post) first) == D)%Q).
  { rewrite Hrest in HMc, HMF |- *.
    assert (HMl' : forall d, (end_ (last (f :: rest) d) == D)%Q)
      by (intros d; rewrite (last_default f rest d f), <- Hrest; exact HMl).
    subst pre. destruct (Qltb 0 (start f)) eqn:E; simpl app.
    - apply Qltb_spec in E. split; [constructor; [|exact HMF]|].
      + destruct Hf as (H1 & H2 & H3); unfold within; simpl.
        split; [apply Qle_refl|]. split; [apply Qlt_le_weak; exact E|].
        apply (Qle_trans _ (end_ f)); assumption.
      + split; [split; [reflexivity|exact HMc]|].
        eexists; eexists; split; [reflexivity|]. split; [reflexivity|].
        change (last (silent 0 (start f) :: f :: rest) (silent 0 (start f)))
          with (last (f :: rest) (silent 0 (start f))).
        apply HMl'.
    - apply Qltb_false in E. split; [exact HMF|]. split; [exact HMc|].
      eexists; eexists; split; [reflexivity|]. split; [|apply HMl'].
      destruct Hf as (H1 & _ & _). apply Qle_antisym; assumption. }
  destruct Hall as (HAF & HAc & HAe).
  split; [reflexivity|].
  split; [intros m' Hm'; eapply add_silent_intervals_lookup; [exact Hm'|exact Hin|];
          unfold add_silent_speaker; rewrite Es, Ht; reflexivity|].
  split; [exact HAF|].
  split.
  { apply (chain_impl (within D) (fun a b => end_ a == start b)%Q _ _
             (fun a b Ha Hb Hab => Qle_trans _ _ _ (proj1 (proj2 Ha)) (Qeq_to_le _ _ Hab))
             HAF HAc). }
  split; [|split; [exact HAc|exact HAe]].
  apply (chain_impl (within D) (fun a b => end_ a == start b)%Q _ _
           (fun a b _ _ Hab => Qeq_to_le _ _ Hab) HAF HAc).
Qed.

Lemma add_silent_intervals_timeline_witness :
  exists out,
    add_silent_speaker [mkInterval 1 2 "hi"; mkInterval 3 4 "yo"] 10 = Ok out /\
    Forall (within 10) out /\
    chain (fun a b => end_ a == start b)%Q out.
Proof.
  destruct (add_silent_intervals_timeline [("A", [mkInterval 1 2 "hi"; mkInterval 3 4 "yo"])]
              "A" [mkInterval 1 2 "hi"; mkInterval 3 4 "yo"] 10)
    as (out & H1 & _ & H3 & _ & _ & H6 & _).
  - left; reflexivity.
  - discriminate.
  - repeat constructor; apply Qle_bool_iff; reflexivity.
  - simpl. split; [apply Qle_bool_iff; reflexivity|exact I].
  - exists out; split; [exact H1|split; [exact H3|exact H6]].
Defined.

(** ** The parser *)

Definition speakers_nonempty (m : SpeakerMap) : Prop :=
  Forall (fun p => snd p <> []) m.

Lemma append_interval_nonempty : forall sp iv m,
  speakers_nonempty m -> speakers_nonempty (append_interval sp iv m).
Proof.
  intros sp iv m; induction m as [|[k ivs] m IH]; intros H; simpl.
  - constructor; [discriminate|constructor].
  - inversion H as [|? ? Hk Hm]; subst.
    destruct (String.eqb k sp); constructor.
    + simpl. destruct ivs; discriminate.
    + exact Hm.
    + exact Hk.
    + apply IH; exact Hm.
Qed.

(** Case analysis on the matches and binds of [parse_block]. *)
Ltac parse_block_cases H :=
  repeat match type of H with
  | context [match ?x with _ => _ end] => destruct x eqn:?; simpl in H
  | context [bind ?x _] => destruct x eqn:?; simpl in H
  end.

Lemma parse_block_nonempty : forall D d c m cl b m' cl',
  parse_block D d c (m, cl) b = Ok (m', cl') ->
  speakers_nonempty m -> speakers_nonempty m'.
Proof.
  intros D d c m cl b m' cl' H Hm. unfold parse_block in H.
  parse_block_cases H; try discriminate.
  all: injection H as <- <-; first [exact Hm | apply append_interval_nonempty; exact Hm].
Qed.

Lemma parse_blocks_nonempty : forall D d c bs m cl m' cl',
  parse_blocks D d c (m, cl) bs = Ok (m', cl') ->
  speakers_nonempty m -> speakers_nonempty m'.
Proof.
  intros D d c bs; induction bs as [|b bs IH]; intros m cl m' cl' H Hm; cbn [parse_blocks] in H.
  - injection H as <- <-; exact Hm.
  - destruct (parse_block D d c (m, cl) b) as [[m1 cl1]|e] eqn:E; cbn [bind] in H; [|discriminate].
    eapply IH; [exact H|]. eapply parse_block_nonempty; eassumption.
Qed.

Lemma add_silent_speaker_ok : forall l D, l <> [] -> exists out, add_silent_speaker l D = Ok out.
Proof.
  intros l D Hne. unfold add_silent_speaker.
  destruct (sort_by_start l) eqn:E; [apply sort_by_start_nonempty in Hne; contradiction|].
  eexists; reflexivity.
Qed.

Lemma add_silent_intervals_ok : forall m D, speakers_nonempty m ->
  exists m', add_silent_intervals m D = Ok m'.
Proof.
  induction m as [|[k ivs] m IH]; intros D H; simpl; [eexists; reflexivity|].
  inversion H as [|? ? Hk Hm]; subst.
  destruct (add_silent_speaker_ok ivs D Hk) as [out Ho]. rewrite Ho; simpl.
  destruct (IH D Hm) as [m' Hm']. rewrite Hm'. eexists; reflexivity.
Qed.

(** C10: every speaker list built by the parsing loop of [parse_srt] is
    non-empty, so [add_silent_intervals] never raises on it (its
    [intervals[0]] and [intervals[-1]] always exist). *)
Theorem parse_srt_speakers_nonempty : forall srt D d c st,
  collect_intervals srt D d c = Ok st ->
  speakers_nonempty (fst st) /\ exists m', add_silent_intervals (fst st) D = Ok m'.
Proof.
  intros srt D d c [m cl] H. unfold collect_intervals in H.
  assert (Hm : speakers_nonempty m)
    by (eapply parse_blocks_nonempty; [exact H|constructor]).
  split; [exact Hm|apply add_silent_intervals_ok; exact Hm].
Qed.

(** A small SRT file: two speakers, the last subtitle past 10 seconds. *)
Definition sample_srt : string :=
  "1" ++ newline ++ "00:00:01,000 --> 00:00:02,500" ++ newline ++ "[A]: hello 45%"
  ++ newline ++ newline ++ "2" ++ newline ++ "00:00:03,000 --> 00:00:04,000" ++ newline
  ++ "[B]: SRT" ++ newline ++ newline ++ "3" ++ newline ++ "00:00:05,000 --> 00:00:20,000"
  ++ newline ++ "[A]: late".

Lemma parse_srt_speakers_nonempty_witness :
  exists st, collect_intervals sample_srt 10 true true = Ok st /\
    speakers_nonempty (fst st).
Proof.
  destruct (collect_intervals sample_srt 10 true true) as [st|e] eqn:E;
    [|vm_compute in E; discriminate].
  exists st. split; [reflexivity|].
  exact (proj1 (parse_srt_speakers_nonempty sample_srt 10 true true st E)).
Defined.

(** Unfolds [parse_block] on a block with at least three lines and a
    timestamp line of two parseable times. *)
Lemma parse_block_timed : forall D d c m cl b l0 tr l2 more st_s en_s s e,
  split_sep newline b = l0 :: tr :: l2 :: more ->
  split_sep " --> " tr = [st_s; en_s] ->
  time_to_seconds st_s = Ok s -> time_to_seconds en_s = Ok e ->
  parse_block D d c (m, cl) b =
    if Qltb D e then Ok (m, cl)
    else if d then
      match speaker_match (strip l2) with
      | Some (speaker, txt) =>
          pt <- process_text txt tr cl c ;;
          Ok (append_interval speaker (mkInterval s e (fst pt)) m, snd pt)
      | None => Ok (m, cl)
      end
    else
      pt <- process_text (strip l2) tr cl c ;;
      Ok (append_interval "Speaker" (mkInterval s e (fst pt)) m, snd pt).
Proof.
  intros D d c m cl b l0 tr l2 more st_s en_s s e Hl Ht Hs He.
  unfold parse_block. rewrite Hl, Ht, Hs, He. reflexivity.
Qed.

(** C7: a block whose end time is past the media duration leaves the
    speaker lists and the change list as they were (no interval, clamped or
    otherwise); a block whose end time is at most the duration has its
    interval, with the parsed start and end unchanged, appended to its
    speaker's list (the fixed speaker "Speaker" without diarization, the
    tagged speaker with it) once its text is processed. *)
Theorem parse_block_duration_filter : forall D d c m cl b l0 tr l2 more st_s en_s s e,
  split_sep newline b = l0 :: tr :: l2 :: more ->
  split_sep " --> " tr = [st_s; en_s] ->
  time_to_seconds st_s = Ok s -> time_to_seconds en_s = Ok e ->
  ((D < e)%Q -> parse_block D d c (m, cl) b = Ok (m, cl)) /\
  ((e <= D)%Q -> forall speaker txt out cl',
     (if d then speaker_match (strip l2) = Some (speaker, txt)
      else speaker = "Speaker" /\ txt = strip l2) ->
     process_text txt tr cl c = Ok (out, cl') ->
     parse_block D d c (m, cl) b
       = Ok (append_interval speaker (mkInterval s e out) m, cl')).
Proof.
  intros D d c m cl b l0 tr l2 more st_s en_s s e Hl Ht Hs He.
  rewrite (parse_block_timed D d c m cl b l0 tr l2 more st_s en_s s e Hl Ht Hs He).
  split.
  - intros HDe. apply Qltb_spec in HDe. rewrite HDe. reflexivity.
  - intros HeD speaker txt out cl' Hsp Hp.
    destruct (Qltb D e) eqn:E; [apply Qltb_spec in E; exfalso; apply (Qlt_not_le _ _ E HeD)|].
    destruct d.
    + rewrite Hsp, Hp. reflexivity.
    + destruct Hsp as [-> ->]. rewrite Hp. reflexivity.
Qed.

Lemma parse_block_duration_filter_witness :
  parse_block 3 false false ([], []) ("1" ++ newline ++ "00:00:01,000 --> 00:00:05,000" ++ newline ++ "hi")
    = Ok ([], []) /\
  parse_block 10 false false ([], []) ("1" ++ newline ++ "00:00:01,000 --> 00:00:05,000" ++ newline ++ "hi")
    = Ok (append_interval "Speaker" (mkInterval 1 5 "hi") [], []).
Proof.
  split.
  - apply (proj1 (parse_block_duration_filter 3 false false [] []
             ("1" ++ newline ++ "00:00:01,000 --> 00:00:05,000" ++ newline ++ "hi")
             "1" "00:00:01,000 --> 00:00:05,000" "hi" [] "00:00:01,000" "00:00:05,000"
             1 5 eq_refl eq_refl eq_refl eq_refl)).
    apply Qltb_spec; reflexivity.
  - refine (proj2 (parse_block_duration_filter 10 false false [] []
             ("1" ++ newline ++ "00:00:01,000 --> 00:00:05,000" ++ newline ++ "hi")
             "1" "00:00:01,000 --> 00:00:05,000" "hi" [] "00:00:01,000" "00:00:05,000"
             1 5 eq_refl eq_refl eq_refl eq_refl)
             _ "Speaker" "hi" "hi" [] _ _).
    + apply Qle_bool_iff; reflexivity.
    + split; reflexivity.
    + reflexivity.
Defined.

Lemma time_to_seconds_err : forall t e, time_to_seconds t = Err e ->
  e = ValueError \/ e = OverflowError.
Proof.
  intros t e H. unfold time_to_seconds in H.
  repeat match type of H with
  | context [match ?x with _ => _ end] => destruct x; try discriminate
  end; try (injection H as <-; auto; fail).
  all: unfold float_of_int in *; cbn [bind] in *;
    repeat match type of H with
    | context [match ?x with _ => _ end] => destruct x; cbn [bind] in H; try discriminate
    end; injection H as <-; auto.
Qed.

(** [n] zeros. *)
Fixpoint zeros (n : nat) : string :=
  match n with
  | O => EmptyString
  | S n' => String "0"%char (zeros n')
  end.

(** C5 (counterexample): a block whose timestamp line uses a period
    before the milliseconds makes [int("01.000")] raise [ValueError]; the
    block is not skipped and the following, well-formed block is never
    reached. *)
Lemma parse_srt_raises_on_bad_timestamp :
  parse_srt ("1" ++ newline ++ "00:00:01.000 --> 00:00:02.000" ++ newline ++ "hello"
             ++ newline ++ newline ++ "2" ++ newline ++ "00:00:03,000 --> 00:00:04,000"
             ++ newline ++ "hi") 10 false false = Err ValueError.
Proof. vm_compute; reflexivity. Qed.

(** C5 (amended): [parse_block] skips a block with fewer than three lines,
    and, with diarization on, a block (within the duration) whose stripped
    text line does not match the speaker pattern: the state is unchanged
    and the loop goes on with the next block.  A block whose second line
    does not split into exactly two parts at " --> " raises [ValueError]; a
    block one of whose two times does not convert raises the exception of
    [time_to_seconds] on the first such time, which is [ValueError] or
    [OverflowError].  An exception of a block ends the loop. *)
Theorem parse_block_malformed :
  (forall D d c st b, (List.length (split_sep newline b) < 3)%nat ->
     parse_block D d c st b = Ok st) /\
  (forall D c m cl b l0 tr l2 more st_s en_s s e,
     split_sep newline b = l0 :: tr :: l2 :: more ->
     split_sep " --> " tr = [st_s; en_s] ->
     time_to_seconds st_s = Ok s -> time_to_seconds en_s = Ok e -> (e <= D)%Q ->
     speaker_match (strip l2) = None ->
     parse_block D true c (m, cl) b = Ok (m, cl)) /\
  (forall D d c st b l0 tr l2 more,
     split_sep newline b = l0 :: tr :: l2 :: more ->
     List.length (split_sep " --> " tr) <> 2%nat ->
     parse_block D d c st b = Err ValueError) /\
  (forall D d c st b l0 tr l2 more st_s en_s x,
     split_sep newline b = l0 :: tr :: l2 :: more ->
     split_sep " --> " tr = [st_s; en_s] ->
     (time_to_seconds st_s = Err x \/
      (exists s, time_to_seconds st_s = Ok s /\ time_to_seconds en_s = Err x)) ->
     parse_block D d c st b = Err x) /\
  (forall t x, time_to_seconds t = Err x -> x = ValueError \/ x = OverflowError) /\
  (forall D d c st b bs, parse_block D d c st b = Ok st ->
     parse_blocks D d c st (b :: bs) = parse_blocks D d c st bs) /\
  (forall D d c st b bs x, parse_block D d c st b = Err x ->
     parse_blocks D d c st (b :: bs) = Err x).
Proof.
  split; [|split; [|split; [|split; [|split; [|split]]]]].
  - intros D d c [m cl] b H. unfold parse_block.
    destruct (split_sep newline b) as [|x [|y [|z r]]]; try reflexivity.
    simpl in H; lia.
  - intros D c m cl b l0 tr l2 more st_s en_s s e Hl Ht Hs He HeD Hsp.
    rewrite (parse_block_timed D true c m cl b l0 tr l2 more st_s en_s s e Hl Ht Hs He).
    destruct (Qltb D e) eqn:E; [reflexivity|]. rewrite Hsp. reflexivity.
  - intros D d c [m cl] b l0 tr l2 more Hl Hn. unfold parse_block. rewrite Hl.
    destruct (split_sep " --> " tr) as [|x [|y [|z r]]]; try reflexivity.
    simpl in Hn; contradiction.
  - intros D d c [m cl] b l0 tr l2 more st_s en_s x Hl Ht Hbad.
    unfold parse_block. rewrite Hl, Ht.
    destruct Hbad as [Hs|(s & Hs & He)]; rewrite Hs; cbn [bind]; [reflexivity|].
    rewrite He. reflexivity.
  - exact time_to_seconds_err.
  - intros D d c st b bs H. cbn [parse_blocks]. rewrite H. reflexivity.
  - intros D d c st b bs x H. cbn [parse_blocks]. rewrite H. reflexivity.
Qed.

Lemma parse_block_malformed_witness :
  parse_block 10 false false ([], []) ("1" ++ newline ++ "00:00:01,000") = Ok ([], []) /\
  parse_block 10 false false ([], []) ("1" ++ newline ++ "00:00:01.000 --> 00:00:02.000" ++ newline ++ "x")
    = Err ValueError /\
  parse_block 10 false false ([], [])
    ("1" ++ newline ++ ("1" ++ zeros 400 ++ ":00:00,000 --> 00:00:02,000") ++ newline ++ "x")
    = Err OverflowError.
Proof.
  split; [|split].
  - apply (proj1 parse_block_malformed). vm_compute. lia.
  - apply (proj1 (proj2 (proj2 (proj2 parse_block_malformed))) 10 false false ([], [])
             _ "1" "00:00:01.000 --> 00:00:02.000" "x" [] "00:00:01.000" "00:00:02.000").
    + reflexivity.
    + reflexivity.
    + left. vm_compute. reflexivity.
  - apply (proj1 (proj2 (proj2 (proj2 parse_block_malformed))) 10 false false ([], [])
             _ "1" ("1" ++ zeros 400 ++ ":00:00,000 --> 00:00:02,000") "x" []
             ("1" ++ zeros 400 ++ ":00:00,000") "00:00:02,000").
    + reflexivity.
    + vm_compute. reflexivity.
    + left. vm_compute. reflexivity.
Defined.

(** ** C6: the interval invariant *)

(** The subtitle of the counterexample to C6: its end precedes its start. *)
Definition reversed_srt : string :=
  "1" ++ newline ++ "00:00:05,000 --> 00:00:02,000" ++ newline ++ "hi".

(** C6 (counterexample): [parse_srt] builds the interval (5, 2, "hi") from
    a subtitle whose end precedes its start, and it reaches the output. *)
Lemma parse_srt_keeps_reversed_interval :
  exists out ivs iv,
    parse_srt reversed_srt 10 false false = Ok out /\
    In ("Speaker", ivs) (fst out) /\ In iv ivs /\ (end_ iv < start iv)%Q.
Proof.
  destruct (parse_srt reversed_srt 10 false false) as [out|e] eqn:E; [|vm_compute in E; discriminate].
  vm_compute in E. injection E as <-.
  eexists; eexists; exists (mkInterval 5 2 "hi").
  split; [reflexivity|]. split; [left; reflexivity|].
  split; [right; left; reflexivity|]. apply Qltb_spec; reflexivity.
Qed.

Lemma fill_gaps_in : forall l x, In x (fill_gaps l) ->
  In x l \/ exists a b, In a l /\ In b l /\ (end_ a < start b)%Q /\ x = silent (end_ a) (start b).
Proof.
  induction l as [|a [|b r] IH]; intros x H; [destruct H| |].
  - left; exact H.
  - rewrite fill_gaps_cons2 in H. simpl in H. destruct H as [<-|H]; [left; left; reflexivity|].
    destruct (Qltb (end_ a) (start b)) eqn:E; simpl in H.
    + destruct H as [<-|H].
      * right. exists a, b. apply Qltb_spec in E.
        split; [left; reflexivity|]. split; [right; left; reflexivity|]. split; [exact E|reflexivity].
      * destruct (IH x H) as [Hx|(a' & b' & Ha & Hb & Hlt & ->)]; [left; right; exact Hx|].
        right. exists a', b'. split; [right; exact Ha|]. split; [right; exact Hb|]. split; [exact Hlt|reflexivity].
    + destruct (IH x H) as [Hx|(a' & b' & Ha & Hb & Hlt & ->)]; [left; right; exact Hx|].
      right. exists a', b'. split; [right; exact Ha|]. split; [right; exact Hb|]. split; [exact Hlt|reflexivity].
Qed.

(** C6 (amended): [parse_srt] stores the parsed times unchecked, so an
    interval from the SRT input can have [end < start] or a negative
    start.  Every interval that [add_silent_intervals] adds is a silence
    with [start < end]; its start is non-negative when all input intervals
    have non-negative times; every other output interval is an input
    interval, unchanged. *)
Theorem add_silent_speaker_intervals : forall l D out,
  add_silent_speaker l D = Ok out ->
  forall x, In x out ->
    In x l \/
    (text x = "" /\ (start x < end_ x)%Q /\
     (Forall (fun i => 0 <= start i /\ 0 <= end_ i)%Q l -> (0 <= start x)%Q)).
Proof.
  intros l D out H x Hx. unfold add_silent_speaker in H.
  destruct (sort_by_start l) as [|f s'] eqn:Es; [discriminate|]. injection H as <-.
  change (In x ((if Qltb 0 (start f) then [silent 0 (start f)] else [])
                ++ fill_gaps (f :: s')
                ++ (if Qltb (end_ (last (f :: s') f)) D
                    then [silent (end_ (last (f :: s') f)) D] else []))%list) in Hx.
  assert (Hin : forall y, In y (f :: s') -> In y l)
    by (intros y Hy; rewrite <- Es in Hy; apply In_sort_by_start; exact Hy).
  assert (Hnn : Forall (fun i => 0 <= start i /\ 0 <= end_ i)%Q l ->
                forall y, In y (f :: s') -> (0 <= end_ y)%Q).
  { intros HF y Hy. rewrite Forall_forall in HF. apply (HF y (Hin y Hy)). }
  apply in_app_or in Hx as [Hx|Hx].
  - destruct (Qltb 0 (start f)) eqn:E; [|destruct Hx].
    destruct Hx as [<-|[]]. right. apply Qltb_spec in E.
    split; [reflexivity|]. split; [exact E|intros _; apply Qle_refl].
  - apply in_app_or in Hx as [Hx|Hx].
    + destruct (fill_gaps_in _ _ Hx) as [Hy|(a & b & Ha & Hb & Hlt & ->)]; [left; apply Hin, Hy|].
      right. split; [reflexivity|]. split; [exact Hlt|]. intros HF. apply (Hnn HF a Ha).
    + destruct (Qltb (end_ (last (f :: s') f)) D) eqn:E; [|destruct Hx].
      destruct Hx as [<-|[]]. right. apply Qltb_spec in E.
      split; [reflexivity|]. split; [exact E|]. intros HF. apply (Hnn HF), last_in.
Qed.

Lemma add_silent_speaker_intervals_witness :
  add_silent_speaker [mkInterval 1 2 "hi"] 10
    = Ok [silent 0 1; mkInterval 1 2 "hi"; silent 2 10] /\
  (text (silent 2 10) = "" /\ (start (silent 2 10) < end_ (silent 2 10))%Q /\
   (Forall (fun i => 0 <= start i /\ 0 <= end_ i)%Q [mkInterval 1 2 "hi"] ->
    (0 <= start (silent 2 10))%Q)).
Proof.
  split; [reflexivity|].
  destruct (add_silent_speaker_intervals [mkInterval 1 2 "hi"] 10
              [silent 0 1; mkInterval 1 2 "hi"; silent 2 10] eq_refl (silent 2 10)
              ltac:(right; right; left; reflexivity)) as [H|H].
  - exfalso. destruct H as [H|[]]. discriminate.
  - exact H.
Defined.

(* ------------------------------------------------------------------ *)
(** ** Further properties of the script *)

(** [t] is [s] with spaces inserted: deleting some of the spaces of [t]
    gives [s]. *)
Inductive ins_spaces : string -> string -> Prop :=
| ins_nil : ins_spaces EmptyString EmptyString
| ins_keep : forall c s t, ins_spaces s t -> ins_spaces (String c s) (String c t)
| ins_space : forall s t, ins_spaces s t -> ins_spaces s (String " "%char t).

Lemma split_upper_head : forall b t, exists u, split_upper (String b t) = String b u.
Proof.
  intros b [|c t]; [exists ""; reflexivity|].
  cbn [split_upper]. destruct (is_upper b && is_upper c); eexists; reflexivity.
Qed.

Lemma split_upper_cons2 : forall a b t,
  split_upper (String a (String b t))
  = if is_upper a && is_upper b then String a (String " "%char (split_upper (String b t)))
    else String a (split_upper (String b t)).
Proof. reflexivity. Qed.

Lemma has_upper_run_cons2 : forall a b t,
  has_upper_run (String a (String b t))
  = (is_upper a && is_upper b) || has_upper_run (String b t).
Proof. reflexivity. Qed.

Lemma split_upper_no_run : forall s, has_upper_run (split_upper s) = false.
Proof.
  induction s as [|a s IH]; [reflexivity|].
  destruct s as [|b t]; [reflexivity|].
  destruct (split_upper_head b t) as [u Hu].
  rewrite split_upper_cons2. rewrite Hu in IH |- *.
  destruct (is_upper a && is_upper b) eqn:E; rewrite !has_upper_run_cons2; [|rewrite E; exact IH].
  replace (is_upper " "%char) with false by reflexivity.
  rewrite andb_false_r, andb_false_l. exact IH.
Qed.

Lemma split_upper_id : forall s, has_upper_run s = false -> split_upper s = s.
Proof.
  induction s as [|a s IH]; intros H; [reflexivity|].
  destruct s as [|b t]; [reflexivity|].
  rewrite has_upper_run_cons2 in H. apply orb_false_iff in H as [E H].
  rewrite split_upper_cons2, E, (IH H). reflexivity.
Qed.

Lemma split_upper_ins_spaces : forall s, ins_spaces s (split_upper s).
Proof.
  induction s as [|a s IH]; [constructor|].
  destruct s as [|b t]; [repeat constructor|].
  rewrite split_upper_cons2.
  destruct (is_upper a && is_upper b); [apply ins_keep, ins_space, IH|apply ins_keep, IH].
Qed.

Lemma split_upper_has_digit : forall s, has_digit (split_upper s) = has_digit s.
Proof.
  induction s as [|a s IH]; [reflexivity|].
  destruct s as [|b t]; [reflexivity|].
  rewrite split_upper_cons2.
  set (X := split_upper (String b t)) in *. set (Y := String b t) in *. clearbody X Y.
  destruct (is_upper a && is_upper b); simpl; rewrite IH; reflexivity.
Qed.

(** The separation of uppercase letters in [process_text] (line 164):
    the result has no two adjacent uppercase letters, a text without such a
    pair is left as it is, and the only characters inserted are spaces. *)
Theorem split_upper_separates : forall s,
  has_upper_run (split_upper s) = false /\
  (has_upper_run s = false -> split_upper s = s) /\
  ins_spaces s (split_upper s).
Proof.
  intros s. split; [apply split_upper_no_run|]. split; [apply split_upper_id|].
  apply split_upper_ins_spaces.
Qed.

Lemma replace_y_no_digit : forall s, has_digit s = false -> has_digit (replace_y s) = false.
Proof.
  induction s as [|c s IH]; intros H; [reflexivity|].
  simpl in H. apply orb_false_iff in H as [Hc Hs]. simpl.
  destruct (Ascii.eqb c "y"%char); simpl; [apply IH, Hs|rewrite Hc; apply IH, Hs].
Qed.

Lemma replace_number_match_no_digit : forall s w,
  replace_number_match s = Ok w -> has_digit w = false.
Proof.
  unfold replace_number_match; intros s w H.
  destruct (is_decade s).
  - bind_inv H. injection H as <-. apply number_to_words_no_digit in E.
    apply no_digit_app; [apply replace_y_no_digit, E|reflexivity].
  - destruct (py_int s); [|discriminate]. eapply number_to_words_no_digit; eassumption.
Qed.

Lemma m_number_none : forall c s', m_number (String c s') = None -> is_digit c = false.
Proof.
  intros c s' H. unfold m_number, span_digits in H. cbn [span] in H.
  destruct (is_digit c) eqn:E; [|reflexivity].
  destruct (span is_digit s') as [a r]. cbn in H.
  destruct r as [|d r]; [discriminate|]. destruct (Ascii.eqb d "s"%char); discriminate.
Qed.

Lemma str_length_app : forall a b,
  String.length (a ++ b) = (String.length a + String.length b)%nat.
Proof. induction a as [|c a IH]; intros b; simpl; [reflexivity|rewrite IH; reflexivity]. Qed.

Lemma shrinks_number : shrinks m_number.
Proof.
  intros s r rest H. unfold m_number in H.
  destruct (span_digits s) as [d r0] eqn:E.
  destruct (String.eqb_spec d EmptyString) as [|Hne]; [discriminate|].
  apply span_app in E. subst s. rewrite str_length_app.
  destruct d as [|c d]; [contradiction|]. simpl.
  destruct r0 as [|c' r1]; [injection H as _ <-; simpl; lia|].
  destruct (Ascii.eqb c' "s"%char); injection H as _ <-; simpl; lia.
Qed.

Lemma m_number_words : forall s r rest w,
  m_number s = Some (r, rest) -> r = Ok w -> has_digit w = false.
Proof.
  intros s r rest w E Hr. subst r. unfold m_number in E.
  destruct (span_digits _) as [d r0].
  destruct (String.eqb d ""); [discriminate|].
  destruct r0 as [|c' r1]; [|destruct (Ascii.eqb c' "s"%char)];
    injection E as E _; eapply replace_number_match_no_digit; eassumption.
Qed.

(** Step 6 leaves no digit: it fires at every digit, and its replacements
    are words. *)
Lemma sub_scan_number_no_digit : forall f s w, (String.length s <= f)%nat ->
  sub_scan m_number f s = Ok w -> has_digit w = false.
Proof.
  induction f as [|f IH]; intros s w Hl H.
  - destruct s; [injection H as <-; reflexivity|simpl in Hl; lia].
  - destruct s as [|c s']; simpl in H; [injection H as <-; reflexivity|].
    destruct (m_number (String c s')) as [[r rest]|] eqn:E.
    + assert (Hr := shrinks_number _ _ _ E). bind_inv H. bind_inv H. injection H as <-.
      apply no_digit_app.
      * eapply m_number_words; [eassumption|]; first [reflexivity|eassumption].
      * apply (IH rest); [simpl in Hl, Hr; lia|assumption].
    + bind_inv H. injection H as <-. simpl. rewrite (m_number_none _ _ E).
      apply (IH s'); [simpl in Hl; lia|assumption].
Qed.

Lemma replace_numbers_no_digit_out : forall t u,
  replace_numbers t true = Ok u -> has_digit u = false.
Proof.
  unfold replace_numbers; cbn [negb]; intros t u H.
  do 6 bind_inv H. injection H as <-.
  apply (sub_scan_number_no_digit _ _ _ (le_n _) E4).
Qed.

(** Numeral expansion leaves no digit: whenever [replace_numbers] with
    conversion enabled returns, its result contains no decimal digit. *)
Theorem replace_numbers_digit_free : forall t u,
  replace_numbers t true = Ok u -> has_digit u = false.
Proof. exact replace_numbers_no_digit_out. Qed.

Lemma replace_numbers_digit_free_witness :
  replace_numbers "$25 and 3rd of 1990" true = Ok "twenty-five dollars and third of nineteen ninety" /\
  has_digit "twenty-five dollars and third of nineteen ninety" = false.
Proof.
  assert (H : replace_numbers "$25 and 3rd of 1990" true
              = Ok "twenty-five dollars and third of nineteen ninety") by (vm_compute; reflexivity).
  split; [exact H|exact (replace_numbers_digit_free _ _ H)].
Defined.

(** [process_text] with conversion enabled: whenever it returns, the
    processed text has no digit and no two adjacent uppercase letters. *)
Theorem process_text_converted : forall txt ts cl out cl',
  process_text txt ts cl true = Ok (out, cl') ->
  has_digit out = false /\ has_upper_run out = false.
Proof.
  unfold process_text; intros txt ts cl out cl' H.
  bind_inv H. injection H as <- _.
  rewrite split_upper_has_digit. split; [exact (replace_numbers_no_digit_out _ _ E)|].
  apply split_upper_no_run.
Qed.

Lemma process_text_converted_witness :
  process_text "SRT at 2025" "t" [] true
    = Ok ("S R T at twenty twenty-five", [mkChange "t" "SRT at 2025" "S R T at twenty twenty-five"]) /\
  has_digit "S R T at twenty twenty-five" = false /\ has_upper_run "S R T at twenty twenty-five" = false.
Proof.
  assert (H : process_text "SRT at 2025" "t" [] true
    = Ok ("S R T at twenty twenty-five", [mkChange "t" "SRT at 2025" "S R T at twenty twenty-five"]))
    by (vm_compute; reflexivity).
  split; [exact H|exact (process_text_converted _ _ _ _ _ H)].
Defined.

(** ** Sorting by start *)

Definition same_start (q : Q) (i : Interval) : bool := Qeq_bool (start i) q.

Lemma filter_insert_by_start : forall q x l,
  filter (same_start q) (insert_by_start x l) = filter (same_start q) (x :: l).
Proof.
  intros q x l; induction l as [|y l IH]; [reflexivity|].
  cbn [insert_by_start]. destruct (Qle_bool (start x) (start y)) eqn:E; [reflexivity|].
  cbn [filter]. rewrite IH. cbn [filter].
  destruct (same_start q y) eqn:Ey, (same_start q x) eqn:Ex; try reflexivity.
  exfalso. unfold same_start in Ex, Ey. apply Qeq_bool_iff in Ex, Ey.
  assert (H : (start x <= start y)%Q) by (rewrite Ex, Ey; apply Qle_refl).
  apply Qle_bool_iff in H. congruence.
Qed.

Lemma insert_by_start_perm : forall x l, Permutation (x :: l) (insert_by_start x l).
Proof.
  intros x l; induction l as [|y l IH]; [reflexivity|].
  cbn [insert_by_start]. destruct (Qle_bool (start x) (start y)); [reflexivity|].
  rewrite perm_swap. constructor. exact IH.
Qed.

Lemma insert_by_start_sorted : forall x l,
  chain (fun a b => start a <= start b)%Q l ->
  chain (fun a b => start a <= start b)%Q (insert_by_start x l).
Proof.
  intros x l; induction l as [|y [|z l] IH]; intros H.
  - exact I.
  - cbn [insert_by_start]. destruct (Qle_bool (start x) (start y)) eqn:E.
    + split; [apply Qle_bool_iff, E|exact I].
    + split; [|exact I]. apply Qlt_le_weak, Qnot_le_lt. intros H'. apply Qle_bool_iff in H'. congruence.
  - destruct H as [Hyz H]. specialize (IH H).
    cbn [insert_by_start] in IH |- *.
    destruct (Qle_bool (start x) (start y)) eqn:E.
    + split; [apply Qle_bool_iff, E|split; assumption].
    + destruct (Qle_bool (start x) (start z)) eqn:E2.
      * split; [apply Qlt_le_weak, Qnot_le_lt; intros H'; apply Qle_bool_iff in H'; congruence|].
        exact IH.
      * split; [exact Hyz|exact IH].
Qed.

(** [intervals.sort(key=lambda x: x.start)] (line 195) as embedded: the
    result is a permutation of the input, ordered by start, and stable:
    the intervals with any given start keep their input order. *)
Theorem sort_by_start_stable_sort : forall l,
  Permutation l (sort_by_start l) /\
  chain (fun a b => start a <= start b)%Q (sort_by_start l) /\
  (forall q, filter (same_start q) (sort_by_start l) = filter (same_start q) l).
Proof.
  induction l as [|x l IH]; [split; [constructor|split; [exact I|reflexivity]]|].
  destruct IH as (IH1 & IH2 & IH3). cbn [sort_by_start].
  split; [|split].
  - rewrite <- insert_by_start_perm. constructor. exact IH1.
  - apply insert_by_start_sorted, IH2.
  - intros q. rewrite filter_insert_by_start. cbn [filter]. rewrite IH3. reflexivity.
Qed.

(** ** The reconciled timelines *)

Lemma add_silent_intervals_keys : forall m D m',
  add_silent_intervals m D = Ok m' -> map fst m' = map fst m.
Proof.
  induction m as [|[k ivs] m IH]; intros D m' H; simpl in H.
  - injection H as <-; reflexivity.
  - bind_inv H. bind_inv H. injection H as <-. simpl. rewrite (IH D x0 E0). reflexivity.
Qed.

(** The output of a reconciliation is the sorted input with silences put in
    between: [adds_silences l o] says that [o] is [l] with intervals of
    empty text and positive length inserted. *)
Inductive adds_silences : list Interval -> list Interval -> Prop :=
| adds_nil : adds_silences [] []
| adds_keep : forall x l o, adds_silences l o -> adds_silences (x :: l) (x :: o)
| adds_add : forall s l o, text s = "" -> (start s < end_ s)%Q ->
    adds_silences l o -> adds_silences l (s :: o).

Lemma adds_silences_app : forall l1 o1 l2 o2,
  adds_silences l1 o1 -> adds_silences l2 o2 -> adds_silences (l1 ++ l2) (o1 ++ o2).
Proof.
  intros l1 o1 l2 o2 H1 H2; induction H1; simpl.
  - exact H2.
  - apply adds_keep; assumption.
  - apply adds_add; assumption.
Qed.

Lemma adds_silences_refl : forall l, adds_silences l l.
Proof. induction l; constructor; assumption. Qed.

Lemma fill_gaps_adds : forall l, adds_silences l (fill_gaps l).
Proof.
  induction l as [|x [|y r] IH]; [constructor|apply adds_keep; constructor|].
  rewrite fill_gaps_cons2. cbn [app]. apply adds_keep.
  destruct (Qltb (end_ x) (start y)) eqn:E; cbn [app]; [|exact IH].
  apply adds_add; [reflexivity|apply Qltb_spec, E|exact IH].
Qed.

(** For one speaker, [add_silent_intervals] outputs the speaker's
    intervals sorted by start, each exactly once and unchanged, with only
    silent intervals (empty text, start before end) inserted before,
    between and after them. *)
Theorem add_silent_speaker_inserts_silences : forall l D out,
  add_silent_speaker l D = Ok out -> adds_silences (sort_by_start l) out.
Proof.
  intros l D out H. unfold add_silent_speaker in H.
  destruct (sort_by_start l) as [|f s'] eqn:Es; [discriminate|]. injection H as <-.
  change (adds_silences (f :: s')
    ((if Qltb 0 (start f) then [silent 0 (start f)] else [])
     ++ fill_gaps (f :: s')
     ++ (if Qltb (end_ (last (f :: s') f)) D
         then [silent (end_ (last (f :: s') f)) D] else []))%list).
  rewrite <- (app_nil_l (f :: s')).
  apply adds_silences_app.
  - destruct (Qltb 0 (start f)) eqn:E; [|constructor].
    apply adds_add; [reflexivity|apply Qltb_spec, E|constructor].
  - rewrite <- (app_nil_r (f :: s')) at 1. apply adds_silences_app; [apply fill_gaps_adds|].
    destruct (Qltb _ D) eqn:E; [|constructor].
    apply adds_add; [reflexivity|apply Qltb_spec, E|constructor].
Qed.

Lemma add_silent_speaker_inserts_silences_witness :
  add_silent_speaker [mkInterval 4 5 "b"; mkInterval 1 2 "a"] 6
    = Ok [silent 0 1; mkInterval 1 2 "a"; silent 2 4; mkInterval 4 5 "b"; silent 5 6] /\
  adds_silences (sort_by_start [mkInterval 4 5 "b"; mkInterval 1 2 "a"])
    [silent 0 1; mkInterval 1 2 "a"; silent 2 4; mkInterval 4 5 "b"; silent 5 6].
Proof.
  assert (H : add_silent_speaker [mkInterval 4 5 "b"; mkInterval 1 2 "a"] 6
    = Ok [silent 0 1; mkInterval 1 2 "a"; silent 2 4; mkInterval 4 5 "b"; silent 5 6])
    by reflexivity.
  split; [exact H|exact (add_silent_speaker_inserts_silences _ _ _ H)].
Defined.

Lemma sort_by_start_sorted_id : forall l,
  chain (fun a b => start a <= start b)%Q l -> sort_by_start l = l.
Proof.
  induction l as [|x [|y r] IH]; intros H; [reflexivity|reflexivity|].
  destruct H as [Hxy H]. cbn [sort_by_start]. cbn [sort_by_start] in IH.
  rewrite (IH H). cbn [insert_by_start].
  apply Qle_bool_iff in Hxy. rewrite Hxy. reflexivity.
Qed.

Lemma Qltb_eq_false : forall x y, (x == y)%Q -> Qltb x y = false.
Proof.
  intros x y H. unfold Qltb. rewrite (proj2 (Qle_bool_iff y x)); [reflexivity|].
  rewrite H; apply Qle_refl.
Qed.

Lemma fill_gaps_contiguous_id : forall l,
  chain (fun a b => end_ a == start b)%Q l -> fill_gaps l = l.
Proof.
  induction l as [|x [|y r] IH]; intros H; [reflexivity|reflexivity|].
  destruct H as [Hxy H]. rewrite fill_gaps_cons2, (IH H).
  rewrite (Qltb_eq_false _ _ Hxy). reflexivity.
Qed.

(** A complete timeline is a fixed point of the reconciliation: for
    intervals ordered by start, each ending where the next starts, the first
    starting at 0 and the last ending at the media duration, the
    reconciliation of one speaker in [add_silent_intervals] returns them
    unchanged. *)
Theorem add_silent_speaker_complete_fixed : forall f r D,
  chain (fun a b => start a <= start b)%Q (f :: r) ->
  chain (fun a b => end_ a == start b)%Q (f :: r) ->
  (start f == 0)%Q -> (end_ (last (f :: r) f) == D)%Q ->
  add_silent_speaker (f :: r) D = Ok (f :: r).
Proof.
  intros f r D Hs Hc H0 HD. unfold add_silent_speaker.
  rewrite (sort_by_start_sorted_id _ Hs).
  change (Ok ((if Qltb 0 (start f) then [silent 0 (start f)] else [])
     ++ fill_gaps (f :: r)
     ++ (if Qltb (end_ (last (f :: r) f)) D
         then [silent (end_ (last (f :: r) f)) D] else []))%list = Ok (f :: r)).
  rewrite (fill_gaps_contiguous_id _ Hc).
  rewrite (Qltb_eq_false 0 (start f)) by (rewrite H0; reflexivity).
  rewrite (Qltb_eq_false _ D HD), app_nil_r. reflexivity.
Qed.

Lemma add_silent_speaker_complete_fixed_witness :
  add_silent_speaker [silent 0 1; mkInterval 1 2 "a"; silent 2 6] 6
    = Ok [silent 0 1; mkInterval 1 2 "a"; silent 2 6].
Proof.
  apply add_silent_speaker_complete_fixed.
  - cbn [chain]. split; [apply Qle_bool_iff; reflexivity|split; [apply Qle_bool_iff; reflexivity|exact I]].
  - cbn [chain]. split; [reflexivity|split; [reflexivity|exact I]].
  - reflexivity.
  - reflexivity.
Defined.

(** ** The speakers and the change list of [parse_srt] *)

Lemma append_interval_keys_in : forall sp iv m k,
  In k (map fst (append_interval sp iv m)) <-> k = sp \/ In k (map fst m).
Proof.
  intros sp iv m k; induction m as [|[k' ivs] m IH]; simpl; [intuition congruence|].
  destruct (String.eqb_spec k' sp) as [->|Hne]; simpl; [intuition congruence|].
  rewrite IH. tauto.
Qed.

Lemma append_interval_nodup : forall sp iv m,
  NoDup (map fst m) -> NoDup (map fst (append_interval sp iv m)).
Proof.
  intros sp iv m; induction m as [|[k ivs] m IH]; intros H; simpl.
  - constructor; [intros []|constructor].
  - inversion H as [|? ? Hk Hm]; subst.
    destruct (String.eqb_spec k sp) as [->|Hne]; simpl; [constructor; assumption|].
    constructor; [|apply IH, Hm].
    rewrite append_interval_keys_in. intros [->|Hin]; [apply Hne; reflexivity|exact (Hk Hin)].
Qed.

Lemma process_text_appends : forall t ts cl c out cl',
  process_text t ts cl c = Ok (out, cl') ->
  exists extra, cl' = (cl ++ extra)%list /\
    Forall (fun r => needs_record (originalText r) = true) extra.
Proof.
  unfold process_text; intros t ts cl c out cl' H. bind_inv H. injection H as _ <-.
  destruct (needs_record t) eqn:Er.
  - eexists; split; [reflexivity|]. constructor; [exact Er|constructor].
  - exists []. split; [rewrite app_nil_r; reflexivity|constructor].
Qed.

(** An invariant of the parsing loop, block by block. *)
Definition loop_inv (diarize : bool) (st : ParseState) : Prop :=
  NoDup (map fst (fst st)) /\
  (diarize = false -> forall k, In k (map fst (fst st)) -> k = "Speaker") /\
  Forall (fun r => needs_record (originalText r) = true) (snd st).

Lemma parse_block_inv : forall D d c st b st',
  parse_block D d c st b = Ok st' -> loop_inv d st -> loop_inv d st'.
Proof.
  intros D d c [m cl] b st' H (H1 & H2 & H3). unfold parse_block in H.
  parse_block_cases H; try discriminate; injection H as <-; try (split; [|split]; assumption).
  all: match goal with
       | E : process_text _ _ _ _ = Ok ?p |- _ =>
           let o := fresh "o" in let cl' := fresh "cl'" in
           destruct p as [o cl'];
           destruct (process_text_appends _ _ _ _ _ _ E) as (extra & -> & Hx)
       end.
  all: split; [apply append_interval_nodup, H1|split; [|apply Forall_app; split; assumption]].
  all: intros Hd k Hk; simpl in Hk; rewrite append_interval_keys_in in Hk.
  all: first [discriminate Hd | destruct Hk as [->|Hk]; [reflexivity|apply H2; assumption]].
Qed.

Lemma parse_srt_inv : forall srt D d c m cl,
  parse_srt srt D d c = Ok (m, cl) -> loop_inv d (m, cl).
Proof.
  unfold parse_srt, collect_intervals; intros srt D d c m cl H.
  bind_inv H. bind_inv H. injection H as <- <-.
  assert (Hl : forall bs st st', parse_blocks D d c st bs = Ok st' -> loop_inv d st -> loop_inv d st').
  { induction bs as [|b bs IH]; intros st st' Hb Hi; cbn [parse_blocks] in Hb.
    - injection Hb as <-; exact Hi.
    - destruct (parse_block D d c st b) as [st1|e] eqn:Eb; cbn [bind] in Hb; [|discriminate].
      apply (IH st1 st' Hb). apply (parse_block_inv D d c st b st1 Eb Hi). }
  assert (H0 : loop_inv d ([], [])) by (split; [constructor|split; [intros _ k []|constructor]]).
  assert (Hx := Hl _ _ _ E H0).
  destruct Hx as (H1 & H2 & H3).
  split; [|split].
  - simpl. rewrite (add_silent_intervals_keys _ _ _ E0). exact H1.
  - intros Hd k Hk. simpl in Hk. rewrite (add_silent_intervals_keys _ _ _ E0) in Hk. exact (H2 Hd k Hk).
  - exact H3.
Qed.

(** Without diarization, [parse_srt] files every subtitle under the single
    speaker "Speaker": no other speaker appears in its result. *)
Theorem parse_srt_single_speaker : forall srt D c m cl,
  parse_srt srt D false c = Ok (m, cl) -> forall k, In k (map fst m) -> k = "Speaker".
Proof.
  intros srt D c m cl H. apply (proj1 (proj2 (parse_srt_inv _ _ _ _ _ _ H))). reflexivity.
Qed.

Lemma parse_srt_single_speaker_witness :
  exists m cl, parse_srt sample_srt 10 false true = Ok (m, cl) /\ map fst m = ["Speaker"] /\
    forall k, In k (map fst m) -> k = "Speaker".
Proof.
  destruct (parse_srt sample_srt 10 false true) as [[m cl]|e] eqn:E; [|vm_compute in E; discriminate].
  exists m, cl. split; [reflexivity|]. split; [vm_compute in E; injection E as <- _; reflexivity|].
  exact (parse_srt_single_speaker _ _ _ _ _ E).
Defined.

(** Every row of the change list returned by [parse_srt] comes from a
    subtitle text that contains a digit or two adjacent uppercase letters. *)
Theorem parse_srt_change_records : forall srt D d c m cl,
  parse_srt srt D d c = Ok (m, cl) ->
  Forall (fun r => needs_record (originalText r) = true) cl.
Proof. intros srt D d c m cl H. apply (parse_srt_inv _ _ _ _ _ _ H). Qed.

Lemma parse_srt_change_records_witness :
  exists m cl, parse_srt sample_srt 10 true true = Ok (m, cl) /\ List.length cl = 2%nat /\
    Forall (fun r => needs_record (originalText r) = true) cl.
Proof.
  destruct (parse_srt sample_srt 10 true true) as [[m cl]|e] eqn:E; [|vm_compute in E; discriminate].
  exists m, cl. split; [reflexivity|]. split; [vm_compute in E; injection E as _ <-; reflexivity|].
  exact (parse_srt_change_records _ _ _ _ _ _ E).
Defined.

(** ** String lemmas *)

Lemma substring_app_l : forall p t m,
  substring (String.length p) m (p ++ t) = substring 0 m t.
Proof. induction p as [|c p IH]; intros t m; [reflexivity|apply IH]. Qed.

Lemma substring_full : forall t m, (String.length t <= m)%nat -> substring 0 m t = t.
Proof.
  induction t as [|c t IH]; intros m H; [destruct m; reflexivity|].
  destruct m as [|m]; simpl in H; [lia|]. simpl. rewrite IH by lia. reflexivity.
Qed.

Lemma after_app : forall p t, after p (p ++ t) = t.
Proof.
  intros p t. unfold after. rewrite substring_app_l. apply substring_full.
  rewrite str_length_app. lia.
Qed.

Lemma prefix_app : forall p t, String.prefix p (p ++ t) = true.
Proof.
  induction p as [|c p IH]; intros t; [destruct t; reflexivity|].
  simpl. destruct (ascii_dec c c) as [_|n]; [apply IH|contradiction n; reflexivity].
Qed.

Lemma prefix_ex : forall p s, String.prefix p s = true -> exists t, s = (p ++ t)%string.
Proof.
  induction p as [|c p IH]; intros s H; [exists s; reflexivity|].
  destruct s as [|d s]; [discriminate|]. simpl in H.
  destruct (ascii_dec c d) as [->|]; [|discriminate].
  destruct (IH s H) as [t ->]. exists t. reflexivity.
Qed.

Lemma prefix_after : forall p s, String.prefix p s = true -> s = (p ++ after p s)%string.
Proof. intros p s H. destruct (prefix_ex p s H) as [t ->]. rewrite after_app. reflexivity. Qed.

(** [forall_chars p s]: every character of [s] satisfies [p]. *)
Definition forall_chars (p : ascii -> bool) (s : string) : Prop :=
  forall c, In c (list_ascii_of_string s) -> p c = true.

Lemma forall_chars_b : forall p s,
  forallb p (list_ascii_of_string s) = true -> forall_chars p s.
Proof. intros p s H c Hc. rewrite forallb_forall in H. apply H, Hc. Qed.

Lemma span_spec : forall p s a r, span p s = (a, r) ->
  s = (a ++ r)%string /\ forall_chars p a /\
  (match r with String c _ => p c = false | EmptyString => True end).
Proof.
  intros p s; induction s as [|c s IH]; intros a r H; simpl in H.
  - injection H as <- <-. split; [reflexivity|split; [intros c []|exact I]].
  - destruct (p c) eqn:E.
    + destruct (span p s) as [a' r'] eqn:E'. injection H as <- <-.
      destruct (IH a' r' eq_refl) as (H1 & H2 & H3).
      split; [simpl; f_equal; exact H1|split; [|exact H3]].
      intros d [<-|Hd]; [exact E|apply H2, Hd].
    + injection H as <- <-. split; [reflexivity|split; [intros d []|exact E]].
Qed.

Lemma span_app_stop : forall p a r,
  forall_chars p a -> (match r with String c _ => p c = false | EmptyString => True end) ->
  span p (a ++ r) = (a, r).
Proof.
  intros p a r; induction a as [|c a IH]; intros Ha Hr.
  - destruct r as [|c r]; [reflexivity|]. simpl. rewrite Hr. reflexivity.
  - simpl. rewrite (Ha c (or_introl eq_refl)).
    rewrite IH; [reflexivity| |exact Hr]. intros d Hd. apply Ha. right; exact Hd.
Qed.

Definition not_close (c : ascii) : bool := negb (Ascii.eqb c "]"%char).
Definition not_newline (c : ascii) : bool := negb (Ascii.eqb c "010"%char).

(** The speaker pattern of line 253: a line "[sp]: t" with a non-empty
    speaker [sp] free of closing brackets gives the speaker [sp] and the
    text [t] up to the first line break; and every match is of this form. *)
Theorem speaker_match_spec :
  (forall sp t rest, sp <> "" -> forall_chars not_close sp -> forall_chars not_newline t ->
     (match rest with String c _ => c = "010"%char | EmptyString => True end) ->
     speaker_match ("[" ++ sp ++ "]: " ++ t ++ rest) = Some (sp, t)) /\
  (forall s sp t, speaker_match s = Some (sp, t) ->
     sp <> "" /\ forall_chars not_close sp /\ forall_chars not_newline t /\
     exists rest, s = ("[" ++ sp ++ "]: " ++ t ++ rest)%string).
Proof.
  split.
  - intros sp t rest Hsp Hc Ht Hr.
    change (speaker_match (String "["%char (sp ++ "]: " ++ t ++ rest)) = Some (sp, t)).
    unfold speaker_match. cbv beta iota.
    change (Ascii.eqb "["%char "["%char) with true. cbv beta iota.
    fold not_close.
    rewrite (span_app_stop _ sp ("]: " ++ t ++ rest)); [|exact Hc|reflexivity].
    destruct sp as [|c sp']; [contradiction|].
    rewrite prefix_app, after_app.
    rewrite (span_app_stop _ t rest); [reflexivity|exact Ht|].
    destruct rest as [|c' r]; [exact I|subst c'; reflexivity].
  - intros s sp t H. unfold speaker_match in H.
    destruct s as [|c r]; [discriminate|].
    destruct (Ascii.eqb_spec c "["%char) as [->|]; [|discriminate].
    destruct (span not_close r) as [sp0 r2] eqn:E1.
    fold not_close in H. rewrite E1 in H.
    destruct sp0 as [|c0 sp1]; [discriminate|].
    destruct (String.prefix "]: " r2) eqn:E2; [|discriminate].
    fold not_newline in H.
    destruct (span not_newline (after "]: " r2)) as [t0 rest] eqn:E3.
    injection H as <- <-.
    destruct (span_spec _ _ _ _ E1) as (H1 & H2 & _).
    destruct (span_spec _ _ _ _ E3) as (H4 & H5 & _).
    split; [discriminate|]. split; [exact H2|]. split; [exact H5|].
    exists rest. rewrite H1, (prefix_after _ _ E2), H4. reflexivity.
Qed.

Lemma speaker_match_spec_witness :
  speaker_match "[Ann]: hi there" = Some ("Ann", "hi there").
Proof.
  apply (proj1 speaker_match_spec "Ann" "hi there" "").
  - discriminate.
  - apply forall_chars_b; reflexivity.
  - apply forall_chars_b; reflexivity.
  - exact I.
Defined.

(** ** Splitting *)

Definition sep_shrinks (sepm : string -> option string) : Prop :=
  forall s r, sepm s = Some r -> (String.length r < String.length s)%nat.

Lemma split_by_aux_fuel : forall sepm, sep_shrinks sepm ->
  forall f1 f2 s, (String.length s <= f1)%nat -> (String.length s <= f2)%nat ->
  split_by_aux sepm f1 s = split_by_aux sepm f2 s.
Proof.
  intros sepm Hm f1; induction f1 as [|f1 IH]; intros f2 s H1 H2.
  - destruct s; [destruct f2; reflexivity|simpl in H1; lia].
  - destruct f2 as [|f2]; [destruct s; [reflexivity|simpl in H2; lia]|].
    destruct s as [|c s']; [reflexivity|]. simpl.
    destruct (sepm (String c s')) as [r|] eqn:E.
    + apply Hm in E. simpl in E, H1, H2. rewrite (IH f2 r) by lia; reflexivity.
    + simpl in H1, H2. rewrite (IH f2 s') by lia; reflexivity.
Qed.

Definition cons_head (c : ascii) (xs : list string) : list string :=
  match xs with
  | x :: xs' => String c x :: xs'
  | [] => [String c EmptyString]
  end.

Lemma split_by_sep : forall sepm, sep_shrinks sepm -> forall s r,
  s <> EmptyString -> sepm s = Some r -> split_by sepm s = EmptyString :: split_by sepm r.
Proof.
  intros sepm Hm [|c s'] r Hne E; [contradiction|].
  unfold split_by. simpl. rewrite E. f_equal.
  apply split_by_aux_fuel; [exact Hm| |lia]. apply Hm in E. simpl in E. lia.
Qed.

Lemma split_by_char : forall sepm, sep_shrinks sepm -> forall c s,
  sepm (String c s) = None -> split_by sepm (String c s) = cons_head c (split_by sepm s).
Proof.
  intros sepm Hm c s E. unfold split_by. simpl. rewrite E. reflexivity.
Qed.

(** No match of the separator starts inside [a] (the match may not even
    run on into what follows [a]). *)
Definition no_sep_in (sepm : string -> option string) (a s : string) : Prop :=
  forall a1 a2, a = (a1 ++ a2)%string -> a2 <> EmptyString -> sepm (a2 ++ s) = None.

Fixpoint prepend (a : string) (xs : list string) : list string :=
  match a with
  | EmptyString => xs
  | String c a' => cons_head c (prepend a' xs)
  end.

Lemma split_by_no_sep : forall sepm, sep_shrinks sepm -> forall a s,
  no_sep_in sepm a s -> split_by sepm (a ++ s) = prepend a (split_by sepm s).
Proof.
  intros sepm Hm a; induction a as [|c a IH]; intros s H; [reflexivity|].
  cbn [append prepend]. rewrite split_by_char; [|exact Hm|].
  - rewrite IH; [reflexivity|]. intros a1 a2 Ha Hne. apply (H (String c a1) a2); [rewrite Ha; reflexivity|exact Hne].
  - apply (H EmptyString (String c a)); [reflexivity|discriminate].
Qed.

Lemma prepend_cons : forall a x xs, prepend a (x :: xs) = (a ++ x)%string :: xs.
Proof. induction a as [|c a IH]; intros x xs; [reflexivity|simpl; rewrite IH; reflexivity]. Qed.

Lemma split_by_empty : forall sepm, split_by sepm EmptyString = [EmptyString].
Proof. reflexivity. Qed.

Lemma str_app_nil_r : forall a, (a ++ EmptyString)%string = a.
Proof. induction a as [|c a IH]; [reflexivity|simpl; rewrite IH; reflexivity]. Qed.

(** Splitting [a1 ++ sep ++ a2 ++ sep ++ ... ++ an]. *)
Lemma join_cons_ex : forall sep b xs, exists t, join sep (b :: xs) = (b ++ t)%string.
Proof.
  intros sep b [|c xs]; [exists EmptyString; symmetry; apply str_app_nil_r|].
  eexists; reflexivity.
Qed.

Lemma split_by_join : forall sepm sep, sep_shrinks sepm -> sep <> EmptyString ->
  forall xs, xs <> [] ->
  (forall a t, In a xs -> sepm (sep ++ a ++ t) = Some (a ++ t)%string) ->
  (forall a, In a xs -> (forall rest, no_sep_in sepm a (sep ++ rest)) /\ no_sep_in sepm a EmptyString) ->
  split_by sepm (join sep xs) = xs.
Proof.
  intros sepm sep Hm Hsep xs; induction xs as [|a [|b xs] IH]; intros Hne Hs H; [contradiction| |].
  - cbn [join]. rewrite <- (str_app_nil_r a) at 1.
    rewrite split_by_no_sep; [|exact Hm|apply (H a (or_introl eq_refl))].
    rewrite split_by_empty, prepend_cons, str_app_nil_r. reflexivity.
  - change (join sep (a :: b :: xs)) with (a ++ sep ++ join sep (b :: xs))%string.
    rewrite split_by_no_sep; [|exact Hm|apply (H a (or_introl eq_refl))].
    rewrite (split_by_sep _ Hm _ (join sep (b :: xs))); [| |].
    + rewrite prepend_cons, str_app_nil_r, IH; [reflexivity|discriminate| |].
      * intros a' t Ha'. apply Hs. right; exact Ha'.
      * intros a' Ha'. apply H. right; exact Ha'.
    + destruct sep; [contradiction|discriminate].
    + destruct (join_cons_ex sep b xs) as [t ->]. apply Hs. right; left; reflexivity.
Qed.

Definition sep_matcher (sep : string) (t : string) : option string :=
  if String.prefix sep t then Some (substring (String.length sep) (String.length t) t) else None.

Lemma split_sep_eq : forall sep s, split_sep sep s = split_by (sep_matcher sep) s.
Proof. reflexivity. Qed.

Lemma sep_matcher_shrinks : forall sep, sep <> EmptyString -> sep_shrinks (sep_matcher sep).
Proof.
  intros sep Hsep t r H. unfold sep_matcher in H.
  destruct (String.prefix sep t) eqn:E; [|discriminate]. injection H as <-.
  destruct (prefix_ex _ _ E) as [u ->]. fold (after sep (sep ++ u)). rewrite after_app.
  rewrite str_length_app. destruct sep; [contradiction|simpl; lia].
Qed.

Lemma sep_matcher_app : forall sep t, sep_matcher sep (sep ++ t) = Some t.
Proof.
  intros sep t. unfold sep_matcher. rewrite prefix_app. fold (after sep (sep ++ t)).
  rewrite after_app. reflexivity.
Qed.

Definition not_char (c d : ascii) : bool := negb (Ascii.eqb d c).

Lemma forall_chars_app : forall p a b,
  forall_chars p (a ++ b) <-> forall_chars p a /\ forall_chars p b.
Proof.
  intros p a b. unfold forall_chars. induction a as [|c a IH]; simpl.
  - split; [intros H; split; [intros _ []|exact H]|intros [_ H]; exact H].
  - split.
    + intros H. assert (Hc := H c (or_introl eq_refl)).
      assert (Hr : forall d, In d (list_ascii_of_string (a ++ b)) -> p d = true)
        by (intros d Hd; apply H; right; exact Hd).
      apply IH in Hr as [Ha Hb]. split; [|exact Hb].
      intros d [<-|Hd]; [exact Hc|apply Ha, Hd].
    + intros [Ha Hb] d [<-|Hd]; [apply Ha; left; reflexivity|].
      apply IH; [|exact Hd]. split; [|exact Hb]. intros e He; apply Ha; right; exact He.
Qed.

Lemma no_sep_in_char : forall c sep a rest,
  forall_chars (not_char c) a -> no_sep_in (sep_matcher (String c sep)) a rest.
Proof.
  intros c sep a rest Ha a1 a2 -> Hne. apply forall_chars_app in Ha as [_ Ha].
  destruct a2 as [|d a2]; [contradiction|]. unfold sep_matcher. simpl.
  destruct (ascii_dec c d) as [<-|]; [|reflexivity].
  exfalso. assert (H := Ha c (or_introl eq_refl)). unfold not_char in H.
  rewrite Ascii.eqb_refl in H. discriminate.
Qed.

Lemma split_sep_join : forall c sep xs, xs <> [] ->
  (forall a, In a xs -> forall_chars (not_char c) a) ->
  split_sep (String c sep) (join (String c sep) xs) = xs.
Proof.
  intros c sep xs Hne H. rewrite split_sep_eq. apply split_by_join.
  - apply sep_matcher_shrinks; discriminate.
  - discriminate.
  - exact Hne.
  - intros a t _. apply sep_matcher_app.
  - intros a Ha. split; [intros rest|]; apply no_sep_in_char, H, Ha.
Qed.

(** ** Timestamps *)

Definition digit_group (d : string) : Prop := d <> EmptyString /\ forall_chars is_digit d.

Lemma digit_not_space : forall c, is_digit c = true -> is_space c = false.
Proof. intros [[] [] [] [] [] [] [] []] H; try reflexivity; discriminate H. Qed.

Lemma digit_not_sign : forall c, is_digit c = true ->
  Ascii.eqb c "-"%char = false /\ Ascii.eqb c "+"%char = false.
Proof. intros [[] [] [] [] [] [] [] []] H; try (split; reflexivity); discriminate H. Qed.

Lemma rstrip_digits : forall d, forall_chars is_digit d -> rstrip d = d.
Proof.
  induction d as [|c d IH]; intros H; [reflexivity|].
  assert (Hc := H c (or_introl eq_refl)).
  simpl. rewrite IH by (intros e He; apply H; right; exact He).
  rewrite (digit_not_space c Hc). reflexivity.
Qed.

Lemma strip_digits : forall d, digit_group d -> strip d = d.
Proof.
  intros [|c d] [Hne H]; [contradiction|]. unfold strip. simpl.
  rewrite (digit_not_space c (H c (or_introl eq_refl))). apply rstrip_digits, H.
Qed.

Lemma udigits_digits : forall d b acc, forall_chars is_digit d -> (d <> EmptyString \/ b = true) ->
  udigits b acc d = Some (digits_value_acc acc d).
Proof.
  induction d as [|c d IH]; intros b acc H Hb.
  - destruct Hb as [Hb| ->]; [contradiction|reflexivity].
  - simpl. rewrite (H c (or_introl eq_refl)). apply IH; [|right; reflexivity].
    intros e He; apply H; right; exact He.
Qed.

Lemma count_digits_le : forall s, (count_digits s <= String.length s)%nat.
Proof. induction s as [|c s IH]; [reflexivity|]. simpl. destruct (is_digit c); simpl; lia. Qed.

Lemma py_int_digits : forall d, digit_group d -> (String.length d <= int_max_str_digits)%nat ->
  py_int d = Some (Z.of_N (digits_value d)).
Proof.
  intros d Hd Hl. unfold py_int.
  destruct (Nat.ltb_spec int_max_str_digits (count_digits d)) as [Hc|_];
    [pose proof (count_digits_le d); lia|].
  rewrite (strip_digits d Hd).
  destruct d as [|c t]; [destruct Hd; contradiction|].
  destruct Hd as [_ H]. destruct (digit_not_sign c (H c (or_introl eq_refl))) as [E1 E2].
  rewrite E1, E2. unfold digits_value. rewrite (udigits_digits _ false 0%N H); [reflexivity|].
  left; discriminate.
Qed.

Lemma digit_val_le : forall c, is_digit c = true -> (digit_val c <= 9)%N.
Proof. intros [[] [] [] [] [] [] [] []] H; try discriminate H; vm_compute; discriminate. Qed.

Lemma forall_chars_cons : forall p c s, forall_chars p (String c s) <-> p c = true /\ forall_chars p s.
Proof.
  intros p c s. split.
  - intros H. split; [apply H; left; reflexivity|intros d Hd; apply H; right; exact Hd].
  - intros [Hc Hs] d [<-|Hd]; [exact Hc|apply Hs, Hd].
Qed.

Lemma digits_value_acc_lt : forall d acc, forall_chars is_digit d ->
  (digits_value_acc acc d < (acc + 1) * 10 ^ N.of_nat (String.length d))%N.
Proof.
  induction d as [|c d IH]; intros acc H.
  - simpl. lia.
  - apply forall_chars_cons in H as [Hc Hd].
    pose proof (digit_val_le c Hc). specialize (IH (acc * 10 + digit_val c)%N Hd).
    change (digits_value_acc acc (String c d)) with (digits_value_acc (acc * 10 + digit_val c) d).
    change (String.length (String c d)) with (S (String.length d)).
    replace (N.of_nat (S (String.length d))) with (N.succ (N.of_nat (String.length d))) by lia.
    rewrite N.pow_succ_r'. nia.
Qed.

Lemma digits_value_lt : forall d, forall_chars is_digit d ->
  (digits_value d < 10 ^ N.of_nat (String.length d))%N.
Proof. intros d H. pose proof (digits_value_acc_lt d 0 H). unfold digits_value. lia. Qed.

(** The text of a timestamp [H:M:S,ms] from four digit groups. *)
Definition render_time (h m s ms : string) : string :=
  h ++ ":" ++ m ++ ":" ++ s ++ "," ++ ms.

Lemma digit_not_char : forall c d, is_digit d = true -> is_digit c = false -> not_char c d = true.
Proof.
  intros c d Hd Hc. unfold not_char. destruct (Ascii.eqb_spec d c) as [->|]; [congruence|reflexivity].
Qed.

Lemma digit_group_not_char : forall c d, is_digit c = false -> digit_group d ->
  forall_chars (not_char c) d.
Proof. intros c d Hc [_ Hd] e He. apply digit_not_char; [apply Hd, He|exact Hc]. Qed.

Lemma time_to_seconds_render_eq : forall h m s ms,
  digit_group h -> digit_group m -> digit_group s -> digit_group ms ->
  (String.length h <= int_max_str_digits)%nat -> (String.length m <= int_max_str_digits)%nat ->
  (String.length s <= int_max_str_digits)%nat -> (String.length ms <= int_max_str_digits)%nat ->
  time_to_seconds (render_time h m s ms)
  = (msf <- float_of_int (Z.of_N (digits_value ms)) ;;
     total <- float_of_int (Z.of_N (digits_value h) * 3600 + Z.of_N (digits_value m) * 60
                            + Z.of_N (digits_value s)) ;;
     Ok (float_result (total + float_result (msf / 1000)))).
Proof.
  intros h m s ms Hh Hm Hs Hms Lh Lm Ls Lms. unfold time_to_seconds, render_time.
  change (h ++ ":" ++ m ++ ":" ++ s ++ "," ++ ms)%string
    with (join ":" [h; m; join "," [s; ms]]).
  rewrite (split_sep_join ":" "" [h; m; join "," [s; ms]]); [| discriminate |].
  - rewrite (split_sep_join "," "" [s; ms]); [| discriminate |].
    + rewrite !py_int_digits by assumption. reflexivity.
    + intros a [<-|[<-|[]]]; apply digit_group_not_char; (reflexivity || assumption).
  - intros a [<-|[<-|[<-|[]]]]; try (apply digit_group_not_char; (reflexivity || assumption)).
    apply forall_chars_app. split; [apply digit_group_not_char; (reflexivity || assumption)|].
    apply forall_chars_app. split; [intros e [<-|[]]; reflexivity|].
    apply digit_group_not_char; (reflexivity || assumption).
Qed.

(** *** Binary64 rounding of small integers *)

Lemma round_div_1 : forall a, round_div a 1 = a.
Proof. intros a. unfold round_div. rewrite Z.div_1_r, Z.mod_1_r. reflexivity. Qed.

Lemma Qred_inject_Z : forall q n, q == inject_Z n -> Qred q = inject_Z n.
Proof.
  intros q n H. rewrite (Qred_complete q (inject_Z n) H).
  unfold Qred, inject_Z. cbn [Qnum Qden].
  pose proof (Z.ggcd_gcd n 1) as Hg. pose proof (Z.ggcd_correct_divisors n 1) as Hd.
  destruct (Z.ggcd n 1) as [g [a b]]. cbn [fst snd] in *.
  rewrite Z.gcd_1_r in Hg. subst g. destruct Hd as [Ha Hb].
  rewrite Z.mul_1_l in Ha, Hb. subst. reflexivity.
Qed.

(** An integer from 0 to [2^53 - 1] is a binary64 number: rounding keeps it. *)
Lemma round_binary64_int : forall x, Qden x = 1%positive -> (0 <= Qnum x < 2 ^ 53)%Z ->
  round_binary64 x = Finite (inject_Z (Qnum x)).
Proof.
  intros [n d] Hd Hn; simpl in Hd, Hn; subst d. unfold round_binary64; cbn [Qnum Qden].
  destruct (Z.eqb_spec n 0) as [->|Hn0]; [reflexivity|].
  assert (Hpos : (0 < n)%Z) by lia. rewrite Z.abs_eq by lia.
  assert (Hk : (2 ^ Z.log2 n <= n < 2 ^ Z.succ (Z.log2 n))%Z) by (apply Z.log2_spec; lia).
  assert (Hk53 : (Z.log2 n < 53)%Z) by (apply Z.log2_lt_pow2; lia).
  assert (Hk0 : (0 <= Z.log2 n)%Z) by apply Z.log2_nonneg.
  assert (Hf : ilog2_frac n 1 = Z.log2 n).
  { unfold ilog2_frac. rewrite Z.log2_1, Z.sub_0_r, Z.mul_1_l.
    destruct (Z.leb_spec 0 (Z.log2 n)); [|lia].
    destruct (Z.ltb_spec n (2 ^ Z.log2 n)); lia. }
  rewrite Hf, Z.max_l by lia. unfold scaled_round.
  rewrite (Z.sgn_pos n Hpos), Z.mul_1_l.
  destruct (Z.leb_spec 0 (Z.log2 n - 52)) as [H52|H52].
  - replace (Z.log2 n - 52)%Z with 0%Z by lia. rewrite Z.mul_1_l. cbn [Z.pow]. rewrite round_div_1.
    match goal with |- context [(1024 <=? ?x)%Z] => destruct (Z.leb_spec 1024 x); [lia|] end.
    f_equal. apply Qred_inject_Z. unfold pow2. simpl. rewrite Qmult_1_r. reflexivity.
  - replace (- (Z.log2 n - 52))%Z with (52 - Z.log2 n)%Z by lia. rewrite round_div_1.
    rewrite Z.log2_mul_pow2 by lia.
    match goal with |- context [(1024 <=? ?x)%Z] => destruct (Z.leb_spec 1024 x); [lia|] end.
    f_equal. apply Qred_inject_Z. unfold pow2.
    destruct (Z.leb_spec 0 (Z.log2 n - 52)); [lia|].
    replace (- (Z.log2 n - 52))%Z with (52 - Z.log2 n)%Z by lia.
    assert (Hp : (0 < 2 ^ (52 - Z.log2 n))%Z) by (apply Z.pow_pos_nonneg; lia).
    unfold Qeq, Qmult, inject_Z. cbn [Qnum Qden]. rewrite !Pos2Z.inj_mul, Z2Pos.id by exact Hp. ring.
Qed.

Lemma float_of_int_small : forall n, (0 <= n < 2 ^ 53)%Z -> float_of_int n = Ok (inject_Z n).
Proof. intros n Hn. unfold float_of_int. rewrite round_binary64_int by (simpl; auto). reflexivity. Qed.

(** ** Well-formed SRT files *)

(** A timestamp [HH:MM:SS,mmm] as its four digit groups. *)
Record Timestamp := mkTimestamp { ts_h : string; ts_m : string; ts_s : string; ts_ms : string }.

Definition ts_text (t : Timestamp) : string := render_time (ts_h t) (ts_m t) (ts_s t) (ts_ms t).

(** The int part [H * 3600 + M * 60 + S] and the milliseconds. *)
Definition ts_int (t : Timestamp) : Z :=
  Z.of_N (digits_value (ts_h t)) * 3600 + Z.of_N (digits_value (ts_m t)) * 60
  + Z.of_N (digits_value (ts_s t)).

Definition ts_millis (t : Timestamp) : Z := Z.of_N (digits_value (ts_ms t)).

(** The float [float(I) + float(ms) / 1000.0] of the timestamp. *)
Definition ts_value (t : Timestamp) : Q :=
  float_result (inject_Z (ts_int t) + float_result (inject_Z (ts_millis t) / 1000)).

(** Digit groups of two, two, two and three digits. *)
Definition ts_ok (t : Timestamp) : Prop :=
  digit_group (ts_h t) /\ digit_group (ts_m t) /\ digit_group (ts_s t) /\ digit_group (ts_ms t) /\
  String.length (ts_h t) = 2%nat /\ String.length (ts_m t) = 2%nat /\
  String.length (ts_s t) = 2%nat /\ String.length (ts_ms t) = 3%nat.

(** An SRT entry: its index line, its two times and its one line of text. *)
Record Subtitle := mkSubtitle {
  sub_index : string; sub_from : Timestamp; sub_to : Timestamp; sub_text : string }.

Definition time_range_text (u : Subtitle) : string :=
  ts_text (sub_from u) ++ " --> " ++ ts_text (sub_to u).

Definition render_block (u : Subtitle) : string :=
  sub_index u ++ newline ++ time_range_text u ++ newline ++ sub_text u.

(** The SRT file: the entries separated by blank lines. *)
Definition render_srt (us : list Subtitle) : string :=
  join (newline ++ newline) (map render_block us).

(** A line that starts with a non-blank character and has no line break. *)
Definition line_ok (s : string) : Prop :=
  (exists c r, s = String c r /\ is_space c = false) /\ forall_chars not_newline s.

(** A text line that, moreover, ends with a non-blank character. *)
Definition text_ok (s : string) : Prop :=
  line_ok s /\ exists a c, s = (a ++ String c EmptyString)%string /\ is_space c = false.

Definition sub_ok (u : Subtitle) : Prop :=
  line_ok (sub_index u) /\ ts_ok (sub_from u) /\ ts_ok (sub_to u) /\ text_ok (sub_text u).

(** What the parsing loop should build, without diarization or
    conversion: the entries that end within the media duration, as
    intervals of the single speaker, and a change record for those whose
    text has a digit or two adjacent uppercase letters. *)
Definition kept (D : Q) (us : list Subtitle) : list Subtitle :=
  filter (fun u => Qle_bool (ts_value (sub_to u)) D) us.

Definition sub_interval (u : Subtitle) : Interval :=
  mkInterval (ts_value (sub_from u)) (ts_value (sub_to u)) (sub_text u).

Definition sub_record (u : Subtitle) : ChangeRecord :=
  mkChange (time_range_text u) (sub_text u) (sub_text u).

Definition speaker_map (ivs : list Interval) : SpeakerMap :=
  match ivs with [] => [] | _ => [("Speaker", ivs)] end.

(** *** Characters of the rendered parts *)

Lemma ts_text_chars : forall t c, ts_ok t -> is_digit c = false ->
  Ascii.eqb c ":"%char = false -> Ascii.eqb c ","%char = false ->
  forall_chars (not_char c) (ts_text t).
Proof.
  intros t c (Hh & Hm & Hs & Hms & _) Hc H1 H2. unfold ts_text, render_time.
  assert (Hsep : forall d, Ascii.eqb c d = false -> forall_chars (not_char c) (String d EmptyString)).
  { intros d Hd. apply forall_chars_cons. split; [|intros e []].
    unfold not_char. rewrite Ascii.eqb_sym, Hd. reflexivity. }
  assert (Hg : forall d, digit_group d -> forall_chars (not_char c) d)
    by (intros d Hd; apply digit_group_not_char; assumption).
  apply forall_chars_app; split; [apply Hg, Hh|].
  apply forall_chars_app; split; [apply Hsep, H1|].
  apply forall_chars_app; split; [apply Hg, Hm|].
  apply forall_chars_app; split; [apply Hsep, H1|].
  apply forall_chars_app; split; [apply Hg, Hs|].
  apply forall_chars_app; split; [apply Hsep, H2|].
  apply Hg, Hms.
Qed.

Lemma ts_text_first : forall t, ts_ok t -> exists c r, ts_text t = String c r /\ is_space c = false.
Proof.
  intros t ([Hne Hh] & _). unfold ts_text, render_time.
  destruct (ts_h t) as [|c r]; [contradiction|].
  exists c, (r ++ ":" ++ ts_m t ++ ":" ++ ts_s t ++ "," ++ ts_ms t)%string. split; [reflexivity|].
  apply digit_not_space, Hh. left; reflexivity.
Qed.

Lemma time_range_no_newline : forall u, ts_ok (sub_from u) -> ts_ok (sub_to u) ->
  forall_chars (not_char "010"%char) (time_range_text u).
Proof.
  intros u H1 H2. unfold time_range_text.
  apply forall_chars_app; split; [apply ts_text_chars; (assumption || reflexivity)|].
  apply forall_chars_app; split; [apply forall_chars_b; reflexivity|].
  apply ts_text_chars; (assumption || reflexivity).
Qed.

Lemma not_newline_char : forall s, forall_chars not_newline s -> forall_chars (not_char "010"%char) s.
Proof. intros s H; exact H. Qed.

(** *** Splitting a block and its time range *)

Lemma render_block_lines : forall u, sub_ok u ->
  split_sep newline (render_block u) = [sub_index u; time_range_text u; sub_text u].
Proof.
  intros u (Hi & Hf & Ht & Hx). unfold render_block, newline.
  change (sub_index u ++ String "010"%char "" ++ time_range_text u ++ String "010"%char "" ++ sub_text u)%string
    with (join (String "010"%char "") [sub_index u; time_range_text u; sub_text u]).
  apply split_sep_join; [discriminate|].
  intros a [<-|[<-|[<-|[]]]].
  - apply not_newline_char, Hi.
  - apply time_range_no_newline; assumption.
  - apply not_newline_char, Hx.
Qed.

Lemma time_range_split : forall u, ts_ok (sub_from u) -> ts_ok (sub_to u) ->
  split_sep " --> " (time_range_text u) = [ts_text (sub_from u); ts_text (sub_to u)].
Proof.
  intros u H1 H2. unfold time_range_text.
  change (ts_text (sub_from u) ++ " --> " ++ ts_text (sub_to u))%string
    with (join " --> " [ts_text (sub_from u); ts_text (sub_to u)]).
  apply split_sep_join; [discriminate|].
  intros a [<-|[<-|[]]]; apply ts_text_chars; (assumption || reflexivity).
Qed.

(** *** [strip] of a line without surrounding blanks *)

Lemma rstrip_last : forall a c, is_space c = false ->
  rstrip (a ++ String c EmptyString) = (a ++ String c EmptyString)%string.
Proof.
  induction a as [|d a IH]; intros c Hc; simpl.
  - rewrite Hc. reflexivity.
  - rewrite (IH c Hc). destruct (is_space d); simpl; [|reflexivity].
    destruct a; reflexivity.
Qed.

Lemma strip_trimmed : forall s c r a c', s = String c r -> is_space c = false ->
  s = (a ++ String c' EmptyString)%string -> is_space c' = false -> strip s = s.
Proof.
  intros s c r a c' E1 Hc E2 Hc'. unfold strip.
  replace (lstrip s) with s by (rewrite E1; simpl; rewrite Hc; reflexivity).
  rewrite E2. apply rstrip_last, Hc'.
Qed.

Lemma strip_text_ok : forall s, text_ok s -> strip s = s.
Proof.
  intros s (((c & r & E1 & Hc) & _) & a & c' & E2 & Hc'). eapply strip_trimmed; eassumption.
Qed.

(** *** Splitting the file into blocks *)

(** Every line break is followed by a non-blank character. *)
Fixpoint nl_ok (s : string) : bool :=
  match s with
  | EmptyString => true
  | String c r =>
      (if Ascii.eqb c "010"%char
       then match r with String d _ => negb (is_space d) | EmptyString => false end
       else true) && nl_ok r
  end.

Lemma nl_ok_suffix : forall a1 a2, nl_ok (a1 ++ a2) = true -> nl_ok a2 = true.
Proof.
  induction a1 as [|c a1 IH]; intros a2 H; [exact H|].
  simpl in H. apply andb_true_iff in H as [_ H]. apply IH, H.
Qed.

Lemma nl_ok_no_sep : forall a rest, nl_ok a = true -> no_sep_in block_sep a rest.
Proof.
  intros a rest H a1 a2 -> Hne. apply nl_ok_suffix in H.
  destruct a2 as [|c r]; [contradiction|].
  unfold block_sep. cbn [append].
  destruct (Ascii.eqb c "010"%char) eqn:E; [|reflexivity].
  simpl in H. rewrite E in H.
  destruct r as [|d r]; [discriminate|].
  apply andb_true_iff in H as [Hd _]. apply negb_true_iff in Hd.
  cbn [append span]. rewrite Hd. reflexivity.
Qed.

Lemma nl_ok_no_newline : forall a b, forall_chars not_newline a -> nl_ok b = true ->
  nl_ok (a ++ b) = true.
Proof.
  induction a as [|c a IH]; intros b Ha Hb; [exact Hb|].
  apply forall_chars_cons in Ha as [Hc Ha]. unfold not_newline in Hc.
  apply negb_true_iff in Hc. simpl. rewrite Hc. apply IH; assumption.
Qed.

Lemma nl_ok_newline : forall c r t, is_space c = false -> nl_ok (String c r ++ t) = true ->
  nl_ok (newline ++ String c r ++ t) = true.
Proof.
  intros c r t Hc H. cbn [newline append nl_ok] in H |- *. rewrite Ascii.eqb_refl, Hc. exact H.
Qed.

Lemma forall_chars_nl_ok : forall s, forall_chars not_newline s -> nl_ok s = true.
Proof. intros s H. rewrite <- (str_app_nil_r s). apply nl_ok_no_newline; [exact H|reflexivity]. Qed.

Lemma render_block_nl_ok : forall u, sub_ok u -> nl_ok (render_block u) = true.
Proof.
  intros u (Hi & Hf & Ht & Hx). unfold render_block.
  apply nl_ok_no_newline; [apply Hi|].
  destruct (ts_text_first _ Hf) as (c & r & E & Hc).
  assert (Etr : exists r', time_range_text u = String c r')
    by (unfold time_range_text; rewrite E; eexists; reflexivity).
  destruct Etr as [r' Er']. rewrite Er'. apply nl_ok_newline; [exact Hc|].
  rewrite <- Er'. apply nl_ok_no_newline; [apply time_range_no_newline; assumption|].
  destruct Hx as (((d & r2 & Ed & Hd) & Hx) & _). rewrite Ed, <- (str_app_nil_r (String d r2)).
  apply nl_ok_newline; [exact Hd|].
  rewrite str_app_nil_r, <- Ed. apply forall_chars_nl_ok, Hx.
Qed.

Lemma render_block_first : forall u, sub_ok u ->
  exists c r, render_block u = String c r /\ is_space c = false.
Proof.
  intros u (((c & r & E & Hc) & _) & _). unfold render_block. rewrite E.
  eexists; eexists; split; [reflexivity|exact Hc].
Qed.

Lemma last_nl_rest_shorter : forall ws k, last_nl_rest ws = Some k ->
  (String.length k < String.length ws)%nat.
Proof.
  induction ws as [|c ws IH]; intros k H; [discriminate|]. simpl in H.
  destruct (last_nl_rest ws) as [k'|] eqn:E.
  - injection H as <-. specialize (IH k' eq_refl). simpl. lia.
  - destruct (Ascii.eqb c "010"%char); [injection H as <-; simpl; lia|discriminate].
Qed.

Lemma block_sep_shrinks : sep_shrinks block_sep.
Proof.
  intros [|c s] r H; [discriminate|]. unfold block_sep in H.
  destruct (Ascii.eqb c "010"%char); [|discriminate].
  destruct (span is_space s) as [ws tl] eqn:E.
  destruct (last_nl_rest ws) as [k|] eqn:E2; [|discriminate]. injection H as <-.
  apply span_app in E. subst s. apply last_nl_rest_shorter in E2.
  simpl. rewrite !str_length_app. lia.
Qed.

Lemma block_sep_blank : forall c r t, is_space c = false ->
  block_sep (newline ++ newline ++ String c r ++ t) = Some (String c r ++ t)%string.
Proof.
  intros c r t Hc. cbn [newline append block_sep]. rewrite Ascii.eqb_refl.
  cbn [span]. replace (is_space "010"%char) with true by reflexivity. rewrite Hc.
  reflexivity.
Qed.

Lemma split_blocks_render : forall us, us <> [] -> Forall sub_ok us ->
  split_blocks (render_srt us) = map render_block us.
Proof.
  intros us Hne H. unfold split_blocks, render_srt.
  rewrite Forall_forall in H.
  apply split_by_join.
  - exact block_sep_shrinks.
  - discriminate.
  - destruct us; [contradiction|discriminate].
  - intros a t Ha. apply in_map_iff in Ha as (u & <- & Hu).
    destruct (render_block_first u (H u Hu)) as (c & r & -> & Hc).
    apply block_sep_blank, Hc.
  - intros a Ha. apply in_map_iff in Ha as (u & <- & Hu).
    split; [intros rest|]; apply nl_ok_no_sep, render_block_nl_ok, H, Hu.
Qed.

Lemma ts_bounds : forall t, ts_ok t -> (0 <= ts_int t < 2 ^ 53)%Z /\ (0 <= ts_millis t < 1000)%Z.
Proof.
  intros t (Hh & Hm & Hs & Hms & Lh & Lm & Ls & Lms). unfold ts_int, ts_millis.
  pose proof (digits_value_lt _ (proj2 Hh)) as Bh. pose proof (digits_value_lt _ (proj2 Hm)) as Bm.
  pose proof (digits_value_lt _ (proj2 Hs)) as Bs. pose proof (digits_value_lt _ (proj2 Hms)) as Bms.
  rewrite Lh in Bh. rewrite Lm in Bm. rewrite Ls in Bs. rewrite Lms in Bms. cbn in Bh, Bm, Bs, Bms.
  change (2 ^ 53)%Z with 9007199254740992%Z. lia.
Qed.

Lemma ts_text_value : forall t, ts_ok t -> time_to_seconds (ts_text t) = Ok (ts_value t).
Proof.
  intros t Ht. destruct (ts_bounds t Ht) as [BI Bms].
  destruct Ht as (H1 & H2 & H3 & H4 & L1 & L2 & L3 & L4). unfold ts_text.
  rewrite time_to_seconds_render_eq by (assumption || (unfold int_max_str_digits; lia)).
  fold (ts_millis t). rewrite float_of_int_small by lia. cbn [bind].
  fold (ts_int t). rewrite float_of_int_small by exact BI. reflexivity.
Qed.

(** [time_to_seconds] on an SRT timestamp [HH:MM:SS,mmm] returns the float
    [float(H * 3600 + M * 60 + S) + float(mmm) / 1000.0]: [mmm] is read as an
    integer number of milliseconds, the quotient and the sum are rounded to
    binary64, and a timestamp of whole seconds ([mmm = 000]) is read
    exactly as [H * 3600 + M * 60 + S]. *)
Theorem time_to_seconds_render : forall t, ts_ok t ->
  time_to_seconds (ts_text t)
  = Ok (float_result (inject_Z (ts_int t) + float_result (inject_Z (ts_millis t) / 1000))) /\
  (ts_ms t = "000" -> time_to_seconds (ts_text t) = Ok (inject_Z (ts_int t))).
Proof.
  intros t Ht. rewrite (ts_text_value t Ht). split; [reflexivity|].
  intros E. destruct (ts_bounds t Ht) as [BI _].
  unfold ts_value, ts_millis. rewrite E.
  replace (float_result (inject_Z (Z.of_N (digits_value "000")) / 1000)) with 0 by (vm_compute; reflexivity).
  unfold float_result. rewrite round_binary64_int.
  - f_equal. cbn [Qnum Qplus inject_Z]. f_equal. cbn. ring.
  - reflexivity.
  - cbn [Qnum Qden Qplus inject_Z]. change (2 ^ 53)%Z with 9007199254740992%Z in *. lia.
Qed.

Lemma time_to_seconds_render_witness :
  time_to_seconds "00:00:01,001" = Ok (2254051613498933 # 2251799813685248) /\
  time_to_seconds "01:02:03,000" = Ok 3723.
Proof.
  split.
  - refine (eq_trans (proj1 (time_to_seconds_render (mkTimestamp "00" "00" "01" "001") _)) _).
    + repeat split; try discriminate; apply forall_chars_b; reflexivity.
    + vm_compute. reflexivity.
  - refine (eq_trans (proj2 (time_to_seconds_render (mkTimestamp "01" "02" "03" "000") _) eq_refl) _).
    + repeat split; try discriminate; apply forall_chars_b; reflexivity.
    + reflexivity.
Defined.

(** *** The whole file *)

Lemma join_ends_trimmed : forall sep xs, xs <> [] ->
  (forall a, In a xs -> exists p c, a = (p ++ String c EmptyString)%string /\ is_space c = false) ->
  exists p c, join sep xs = (p ++ String c EmptyString)%string /\ is_space c = false.
Proof.
  intros sep xs; induction xs as [|a [|b xs] IH]; intros Hne H; [contradiction| |].
  - apply H; left; reflexivity.
  - destruct IH as (p & c & Ep & Hc); [discriminate|intros a' Ha'; apply H; right; exact Ha'|].
    exists (a ++ sep ++ p)%string, c. split; [|exact Hc].
    change (join sep (a :: b :: xs)) with (a ++ sep ++ join sep (b :: xs))%string.
    rewrite Ep, !string_app_assoc. reflexivity.
Qed.

Lemma strip_render_srt : forall us, Forall sub_ok us -> strip (render_srt us) = render_srt us.
Proof.
  intros [|u us] H; [reflexivity|].
  rewrite Forall_forall in H.
  destruct (render_block_first u (H u (or_introl eq_refl))) as (c & r & Ec & Hc).
  destruct (join_cons_ex (newline ++ newline) (render_block u) (map render_block us)) as [t Et].
  destruct (join_ends_trimmed (newline ++ newline) (map render_block (u :: us))) as (p & c' & Ep & Hc').
  - discriminate.
  - intros a Ha. apply in_map_iff in Ha as (v & <- & Hv).
    destruct (H v Hv) as (_ & _ & _ & _ & p & c' & Ep & Hc').
    exists (sub_index v ++ newline ++ time_range_text v ++ newline ++ p)%string, c'.
    split; [|exact Hc']. unfold render_block. rewrite Ep, !string_app_assoc. reflexivity.
  - unfold render_srt. eapply strip_trimmed; [|exact Hc|exact Ep|exact Hc'].
    cbn [map]. rewrite Et, Ec. reflexivity.
Qed.

Lemma speaker_map_snoc : forall ivs iv,
  append_interval "Speaker" iv (speaker_map ivs) = speaker_map (ivs ++ [iv]).
Proof. intros [|i ivs] iv; reflexivity. Qed.

Lemma parse_block_render : forall D u ivs cl, sub_ok u ->
  parse_block D false false (speaker_map ivs, cl) (render_block u)
  = Ok (if Qle_bool (ts_value (sub_to u)) D
        then (speaker_map (ivs ++ [sub_interval u]),
              (cl ++ if needs_record (sub_text u) then [sub_record u] else [])%list)
        else (speaker_map ivs, cl)).
Proof.
  intros D u ivs cl Hu. unfold parse_block.
  rewrite (render_block_lines u Hu).
  destruct Hu as (Hi & Hf & Ht & Hx).
  rewrite (time_range_split u Hf Ht), (ts_text_value _ Hf), (ts_text_value _ Ht). cbn [bind].
  unfold Qltb. destruct (Qle_bool (ts_value (sub_to u)) D); cbn [negb]; [|reflexivity].
  rewrite (strip_text_ok _ Hx), process_text_no_conversion. cbn [bind fst snd].
  rewrite speaker_map_snoc. unfold sub_record, sub_interval.
  destruct (needs_record (sub_text u)); [reflexivity|rewrite app_nil_r; reflexivity].
Qed.

Lemma parse_blocks_render : forall D us ivs cl, Forall sub_ok us ->
  parse_blocks D false false (speaker_map ivs, cl) (map render_block us)
  = Ok (speaker_map (ivs ++ map sub_interval (kept D us)),
        (cl ++ map sub_record (filter (fun u => needs_record (sub_text u)) (kept D us)))%list).
Proof.
  intros D; induction us as [|u us IH]; intros ivs cl H.
  - cbn. rewrite !app_nil_r. reflexivity.
  - inversion H as [|? ? Hu Hus]; subst. cbn [map parse_blocks].
    rewrite (parse_block_render D u ivs cl Hu). cbn [bind kept filter]. fold (kept D us).
    destruct (Qle_bool (ts_value (sub_to u)) D).
    + rewrite IH by exact Hus. cbn [map filter].
      rewrite <- app_assoc. cbn [app].
      destruct (needs_record (sub_text u)); cbn [map app]; rewrite <- app_assoc; reflexivity.
    + apply IH, Hus.
Qed.

Lemma collect_intervals_render : forall us D, Forall sub_ok us ->
  collect_intervals (render_srt us) D false false
  = Ok (speaker_map (map sub_interval (kept D us)),
        map sub_record (filter (fun u => needs_record (sub_text u)) (kept D us))).
Proof.
  intros us D H. unfold collect_intervals. rewrite (strip_render_srt us H).
  destruct us as [|u us']; [reflexivity|].
  rewrite split_blocks_render; [|discriminate|exact H].
  apply (parse_blocks_render D (u :: us') [] [] H).
Qed.

(** [parse_srt] on a well-formed SRT file without diarization or number
    conversion: entries with an index line, a time range
    [HH:MM:SS,mmm --> HH:MM:SS,mmm] (digit groups of two, two, two and
    three digits) and one line of text without surrounding blanks,
    separated by blank lines.  The entries whose end, read as the float
    [ts_value] that [time_to_seconds] returns, is at most the media
    duration become, in file order, the intervals of the single speaker
    "Speaker" (start and end those floats, text unchanged), reconciled by [add_silent_intervals]; the change list
    has one row per such entry whose text has a digit or two adjacent
    uppercase letters. *)
Theorem parse_srt_render : forall us D, Forall sub_ok us ->
  parse_srt (render_srt us) D false false
  = (let ivs := map sub_interval (kept D us) in
     let recs := map sub_record (filter (fun u => needs_record (sub_text u)) (kept D us)) in
     match ivs with
     | [] => Ok ([], recs)
     | _ => out <- add_silent_speaker ivs D ;; Ok ([("Speaker", out)], recs)
     end).
Proof.
  intros us D H. unfold parse_srt. rewrite (collect_intervals_render us D H). cbn [bind fst snd].
  destruct (map sub_interval (kept D us)) as [|iv ivs]; [reflexivity|].
  cbn [speaker_map add_silent_intervals].
  destruct (add_silent_speaker (iv :: ivs) D); reflexivity.
Qed.

Definition sample_ts (s : string) : Timestamp := mkTimestamp "00" "00" s "000".

Definition sample_subs : list Subtitle :=
  [mkSubtitle "1" (sample_ts "01") (sample_ts "02") "Hello there";
   mkSubtitle "2" (sample_ts "03") (sample_ts "04") "It is 2025";
   mkSubtitle "3" (sample_ts "05") (sample_ts "20") "too late"].

Definition digit_groupb (d : string) : bool :=
  negb (String.eqb d EmptyString) && forallb is_digit (list_ascii_of_string d).

Definition line_okb (s : string) : bool :=
  match s with String c _ => negb (is_space c) | EmptyString => false end
  && forallb not_newline (list_ascii_of_string s).

Fixpoint last_okb (s : string) : bool :=
  match s with
  | EmptyString => false
  | String c EmptyString => negb (is_space c)
  | String _ r => last_okb r
  end.

Definition ts_okb (t : Timestamp) : bool :=
  digit_groupb (ts_h t) && digit_groupb (ts_m t) && digit_groupb (ts_s t) && digit_groupb (ts_ms t)
  && (String.length (ts_h t) =? 2)%nat && (String.length (ts_m t) =? 2)%nat
  && (String.length (ts_s t) =? 2)%nat && (String.length (ts_ms t) =? 3)%nat.

Definition sub_okb (u : Subtitle) : bool :=
  line_okb (sub_index u) && ts_okb (sub_from u) && ts_okb (sub_to u)
  && line_okb (sub_text u) && last_okb (sub_text u).

Lemma digit_groupb_spec : forall d, digit_groupb d = true -> digit_group d.
Proof.
  intros d H. unfold digit_groupb in H. apply andb_true_iff in H as [H1 H2].
  split; [|apply forall_chars_b, H2].
  destruct (String.eqb_spec d EmptyString); [discriminate|assumption].
Qed.

Lemma line_okb_spec : forall s, line_okb s = true -> line_ok s.
Proof.
  intros s H. unfold line_okb in H. apply andb_true_iff in H as [H1 H2].
  split; [|apply forall_chars_b, H2].
  destruct s as [|c r]; [discriminate|]. exists c, r. split; [reflexivity|].
  apply negb_true_iff, H1.
Qed.

Lemma last_okb_spec : forall s, last_okb s = true ->
  exists a c, s = (a ++ String c EmptyString)%string /\ is_space c = false.
Proof.
  induction s as [|c r IH]; intros H; [discriminate|].
  destruct r as [|d r'].
  - exists EmptyString, c. split; [reflexivity|apply negb_true_iff, H].
  - destruct (IH H) as (a & c' & E & Hc). exists (String c a), c'.
    split; [rewrite E; reflexivity|exact Hc].
Qed.

Lemma ts_okb_spec : forall t, ts_okb t = true -> ts_ok t.
Proof.
  intros t H. unfold ts_okb in H. rewrite !andb_true_iff, !Nat.eqb_eq in H.
  destruct H as (((((((H1 & H2) & H3) & H4) & L1) & L2) & L3) & L4).
  repeat split; try assumption; apply digit_groupb_spec; assumption.
Qed.

Lemma sub_okb_spec : forall u, sub_okb u = true -> sub_ok u.
Proof.
  intros u H. unfold sub_okb in H. rewrite !andb_true_iff in H.
  destruct H as ((((Hi & Hf) & Ht) & Hx) & Hl).
  split; [apply line_okb_spec, Hi|].
  split; [apply ts_okb_spec, Hf|].
  split; [apply ts_okb_spec, Ht|].
  split; [apply line_okb_spec, Hx|apply last_okb_spec, Hl].
Qed.

Lemma subs_okb_spec : forall us, forallb sub_okb us = true -> Forall sub_ok us.
Proof.
  intros us H. apply Forall_forall. intros u Hu. apply sub_okb_spec.
  rewrite forallb_forall in H. apply H, Hu.
Qed.

Lemma parse_srt_render_witness :
  Forall sub_ok sample_subs /\
  parse_srt (render_srt sample_subs) 10 false false
  = Ok ([("Speaker",
          [silent 0 1; mkInterval 1 2 "Hello there";
           silent 2 3;
           mkInterval 3 4 "It is 2025";
           silent 4 10])],
        [mkChange "00:00:03,000 --> 00:00:04,000" "It is 2025" "It is 2025"]) /\
  parse_srt (render_srt [mkSubtitle "1" (mkTimestamp "00" "00" "00" "500")
                           (mkTimestamp "00" "00" "01" "001") "hi"])
    (2254051613498933 # 2251799813685248) false false
  = Ok ([("Speaker", [silent 0 (1 # 2); mkInterval (1 # 2) (2254051613498933 # 2251799813685248) "hi"])],
        []).
Proof.
  assert (H : Forall sub_ok sample_subs) by (apply subs_okb_spec; reflexivity).
  split; [exact H|]. split.
  - rewrite (parse_srt_render sample_subs 10 H). vm_compute. reflexivity.
  - rewrite (parse_srt_render [mkSubtitle "1" (mkTimestamp "00" "00" "00" "500")
                                 (mkTimestamp "00" "00" "01" "001") "hi"] _
               ltac:(apply subs_okb_spec; reflexivity)).
    vm_compute. reflexivity.
Defined.

(** [add_silent_intervals] fails exactly when some speaker has an empty
    list of intervals, and then with [IndexError] (from [intervals[0]]). *)
Theorem add_silent_intervals_error : forall m D,
  (forall e, add_silent_intervals m D = Err e -> e = IndexError /\ exists sp, In (sp, []) m) /\
  ((exists sp, In (sp, []) m) -> add_silent_intervals m D = Err IndexError).
Proof.
  intros m D; induction m as [|[k ivs] m IH]; split.
  - intros e H; discriminate.
  - intros [sp []].
  - intros e H. cbn [add_silent_intervals] in H.
    destruct (add_silent_speaker ivs D) as [out|e'] eqn:E; cbn [bind] in H.
    + destruct (add_silent_intervals m D) as [m'|e''] eqn:E2; cbn [bind] in H; [discriminate|].
      injection H as <-. destruct (proj1 IH e'' eq_refl) as [-> [sp Hsp]].
      split; [reflexivity|exists sp; right; exact Hsp].
    + injection H as <-. unfold add_silent_speaker in E.
      destruct (sort_by_start ivs) eqn:Es; [|discriminate]. injection E as <-.
      split; [reflexivity|]. exists k. left.
      destruct ivs as [|iv ivs']; [reflexivity|].
      exfalso. apply (sort_by_start_nonempty (iv :: ivs')); [discriminate|exact Es].
  - intros [sp [Hsp|Hsp]]; cbn [add_silent_intervals].
    + injection Hsp as -> ->. reflexivity.
    + destruct (add_silent_speaker ivs D) as [out|e'] eqn:E; cbn [bind].
      * rewrite (proj2 IH (ex_intro _ sp Hsp)). reflexivity.
      * unfold add_silent_speaker in E. destruct (sort_by_start ivs); [|discriminate].
        injection E as <-. reflexivity.
Qed.

Lemma add_silent_intervals_error_witness :
  add_silent_intervals [("A", [mkInterval 0 1 "a"]); ("B", [])] 5 = Err IndexError.
Proof.
  apply (proj2 (add_silent_intervals_error [("A", [mkInterval 0 1 "a"]); ("B", [])] 5)).
  exists "B". right; left; reflexivity.
Defined.

(** ** Plural numerals ("5s", "80s") in [replace_numbers] *)

(** [m] does not match at any position of [pre] when [X] follows it. *)
Definition skips (m : matcher) (pre X : string) : Prop :=
  forall a b, pre = (a ++ b)%string -> b <> EmptyString -> m (b ++ X)%string = None.

Lemma sub_scan_skip : forall m pre X f,
  skips m pre X -> (String.length pre <= f)%nat ->
  sub_scan m f (pre ++ X) = (y <- sub_scan m (f - String.length pre) X ;; Ok (pre ++ y)).
Proof.
  intros m pre; induction pre as [|c pre IH]; intros X f Hs Hf.
  - simpl. rewrite Nat.sub_0_r. destruct (sub_scan m f X); reflexivity.
  - destruct f as [|f]; [simpl in Hf; lia|].
    assert (H0 : m (String c (pre ++ X)) = None)
      by exact (Hs EmptyString (String c pre) eq_refl ltac:(discriminate)).
    change (String c pre ++ X)%string with (String c (pre ++ X)).
    cbn [sub_scan]. rewrite H0. rewrite IH.
    + cbn [String.length Nat.sub]. destruct (sub_scan m (f - String.length pre) X); reflexivity.
    + intros a b E Hb. apply (Hs (String c a) b); [simpl; rewrite E; reflexivity|exact Hb].
    + simpl in Hf; lia.
Qed.

Lemma re_sub_skip : forall m pre X, skips m pre X ->
  re_sub m (pre ++ X) = (y <- re_sub m X ;; Ok (pre ++ y)).
Proof.
  intros m pre X Hs. unfold re_sub.
  rewrite sub_scan_skip by (try exact Hs; rewrite str_length_app; lia).
  rewrite str_length_app.
  replace (String.length pre + String.length X - String.length pre)%nat with (String.length X) by lia.
  reflexivity.
Qed.

(** A matcher that only fires at a digit. *)
Definition fires_at_digit (m : matcher) : Prop :=
  forall c s x, m (String c s) = Some x -> is_digit c = true.

Lemma span_digits_nondigit : forall c s, is_digit c = false ->
  span_digits (String c s) = (EmptyString, String c s).
Proof. intros c s H. unfold span_digits; simpl. rewrite H. reflexivity. Qed.

Ltac fires_tac m :=
  intros c s x H; destruct (is_digit c) eqn:Ec; [reflexivity|];
  unfold m in H; rewrite (span_digits_nondigit c s Ec) in H; discriminate H.

Lemma fires_percentage_range : fires_at_digit m_percentage_range.
Proof. fires_tac m_percentage_range. Qed.

Lemma fires_percentages : fires_at_digit m_percentages.
Proof. fires_tac m_percentages. Qed.

Lemma fires_ordinal_numbers : fires_at_digit m_ordinal_numbers.
Proof. fires_tac m_ordinal_numbers. Qed.

Lemma fires_number : fires_at_digit m_number.
Proof. fires_tac m_number. Qed.

Lemma four_digit_some : forall s x, m_four_digit s = Some x ->
  exists a b c d r, s = String a (String b (String c (String d r))) /\
    is_digit a && is_digit b && is_digit c && is_digit d = true.
Proof.
  intros s x H. unfold m_four_digit in H.
  destruct s as [|a [|b [|c [|d r]]]]; try discriminate.
  destruct (is_digit a && is_digit b && is_digit c && is_digit d) eqn:E; [|discriminate].
  exists a, b, c, d, r. split; [reflexivity|exact E].
Qed.

Lemma fires_four_digit : fires_at_digit m_four_digit.
Proof.
  intros c s x H. apply four_digit_some in H as (a & b & c' & d & r & E & Hd).
  injection E as <- _. rewrite !andb_true_iff in Hd. tauto.
Qed.

Lemma skips_fires : forall m pre X, fires_at_digit m -> has_digit pre = false -> skips m pre X.
Proof.
  intros m pre X Hm Hp a [|c b] E Hb; [contradiction|].
  change (m (String c (b ++ X)) = None).
  destruct (m (String c (b ++ X))) eqn:Em; [|reflexivity].
  apply Hm in Em. subst pre. rewrite has_digit_app in Hp.
  apply orb_false_iff in Hp as [_ Hp]. cbn [has_digit] in Hp.
  rewrite Em in Hp. discriminate Hp.
Qed.

Lemma skips_currency : forall pre X, has_digit pre = false ->
  (forall p, pre <> (p ++ "$")%string) -> skips m_currency pre X.
Proof.
  intros pre X Hp Hd a [|c b] E Hb; [contradiction|].
  change (m_currency (String c (b ++ X)) = None). unfold m_currency.
  destruct (Ascii.eqb_spec c "$"%char) as [->|]; [|reflexivity].
  destruct b as [|c' b].
  - exfalso. apply (Hd a). exact E.
  - subst pre. rewrite has_digit_app in Hp. apply orb_false_iff in Hp as [_ Hp].
    cbn [has_digit] in Hp. apply orb_false_iff in Hp as [_ Hp].
    apply orb_false_iff in Hp as [Hc' _].
    change (String c' b ++ X)%string with (String c' (b ++ X)).
    rewrite (span_digits_nondigit c' _ Hc'). reflexivity.
Qed.

Lemma suffix_digits_s : forall ds a b, forall_chars is_digit ds ->
  (ds ++ "s")%string = (a ++ b)%string -> b <> EmptyString ->
  exists d2, b = (d2 ++ "s")%string /\ forall_chars is_digit d2 /\
             (String.length d2 <= String.length ds)%nat.
Proof.
  intros ds a; revert ds; induction a as [|c a IH]; intros ds b Hd E Hb.
  - exists ds. simpl in E. split; [symmetry; exact E|split; [exact Hd|lia]].
  - destruct ds as [|c' ds].
    + simpl in E. injection E as _ E. destruct a; simpl in E; subst; [contradiction|discriminate].
    + simpl in E. injection E as _ E. apply forall_chars_cons in Hd as [_ Hd].
      destruct (IH ds b Hd E Hb) as [d2 [-> [H1 H2]]].
      exists d2. simpl; split; [reflexivity|split; [exact H1|lia]].
Qed.

Lemma is_ord_s : forall t, is_ord_suffix "s" t = Ascii.eqb t "t".
Proof. intros [[] [] [] [] [] [] [] []]; reflexivity. Qed.

Lemma digit_not_dollar : forall c, is_digit c = true -> Ascii.eqb c "$"%char = false.
Proof. intros [[] [] [] [] [] [] [] []] H; try reflexivity; discriminate H. Qed.

(** The passes before step 6 never match inside a run of at most three
    digits followed by [s], unless [st] follows the run. *)
Lemma skips_plural : forall ds rest, digit_group ds -> (String.length ds <= 3)%nat ->
  (forall r, rest <> String "t" r) ->
  forall m, In m [m_percentage_range; m_percentages; m_ordinal_numbers; m_currency; m_four_digit] ->
  skips m (ds ++ "s") rest.
Proof.
  intros ds rest Hd Hl Ht m Hin a b E Hb.
  destruct (suffix_digits_s ds a b (proj2 Hd) E Hb) as [d2 [-> [Hd2 Hl2]]].
  rewrite <- string_app_assoc.
  assert (Hs : span_digits (d2 ++ "s" ++ rest) = (d2, "s" ++ rest)%string)
    by (apply span_app_stop; [exact Hd2|reflexivity]).
  simpl in Hin. destruct Hin as [<-|[<-|[<-|[<-|[<-|[]]]]]].
  - unfold m_percentage_range. rewrite Hs. cbv beta iota.
    destruct (String.eqb d2 ""); reflexivity.
  - unfold m_percentages. rewrite Hs. cbv beta iota.
    destruct (String.eqb d2 ""); reflexivity.
  - unfold m_ordinal_numbers. rewrite Hs. cbv beta iota.
    destruct (String.eqb d2 ""); [reflexivity|].
    destruct rest as [|t r']; [reflexivity|].
    change ("s" ++ String t r')%string with (String "s" (String t r')). cbv beta iota.
    rewrite is_ord_s. destruct (Ascii.eqb_spec t "t") as [->|]; [|reflexivity].
    exfalso. apply (Ht r'). reflexivity.
  - unfold m_currency. destruct d2 as [|c d2]; [reflexivity|].
    change (String c d2 ++ "s" ++ rest)%string with (String c (d2 ++ "s" ++ rest)).
    cbv beta iota. rewrite (digit_not_dollar c (Hd2 c (or_introl eq_refl))). reflexivity.
  - destruct (m_four_digit (d2 ++ "s" ++ rest)) eqn:E4; [|reflexivity].
    apply four_digit_some in E4 as (a1 & a2 & a3 & a4 & r & Es & H4).
    destruct d2 as [|x1 [|x2 [|x3 [|x4 d2]]]]; simpl in Hl2, Es;
      [| | | | lia]; inversion Es; subst;
      change (is_digit "s"%char) with false in H4;
      rewrite ?andb_false_r, ?andb_false_l in H4; discriminate H4.
Qed.

Lemma udigits_stop_s : forall d b acc, forall_chars is_digit d -> udigits b acc (d ++ "s") = None.
Proof.
  induction d as [|c d IH]; intros b acc H.
  - destruct b; reflexivity.
  - apply forall_chars_cons in H as [Hc H]. simpl. rewrite Hc. apply IH, H.
Qed.

Lemma py_int_plural : forall ds, digit_group ds -> py_int (ds ++ "s") = None.
Proof.
  intros [|c t] [Hne Hd]; [contradiction|].
  unfold py_int. destruct (_ <? _)%nat; [reflexivity|].
  rewrite (strip_trimmed (String c t ++ "s") c (t ++ "s") (String c t) "s"%char eq_refl
             (digit_not_space c (Hd c (or_introl eq_refl))) eq_refl eq_refl).
  change (String c t ++ "s")%string with (String c (t ++ "s")). cbv beta iota.
  destruct (digit_not_sign c (Hd c (or_introl eq_refl))) as [-> ->].
  change (String c (t ++ "s")) with (String c t ++ "s")%string.
  rewrite udigits_stop_s by exact Hd. reflexivity.
Qed.

Lemma is_decade_plural : forall ds, is_decade (ds ++ "s") = true ->
  substring 0 2 (ds ++ "s") = ds.
Proof.
  intros [|a [|b [|c [|d ds]]]] H; try discriminate H; reflexivity.
Qed.

Lemma m_number_plural : forall ds rest, digit_group ds ->
  m_number (ds ++ "s" ++ rest) = Some (replace_number_match (ds ++ "s"), rest).
Proof.
  intros ds rest [Hne Hd]. unfold m_number.
  assert (Hs : span_digits (ds ++ "s" ++ rest) = (ds, "s" ++ rest)%string)
    by exact (span_app_stop is_digit ds ("s" ++ rest) Hd eq_refl).
  rewrite Hs. cbv beta iota.
  destruct (String.eqb_spec ds "") as [|_]; [contradiction|reflexivity].
Qed.

Lemma pass_keeps_plural : forall m pre ds rest, needs_digit m ->
  skips m pre (ds ++ "s" ++ rest) -> skips m (ds ++ "s") rest -> has_digit rest = false ->
  re_sub m (pre ++ ds ++ "s" ++ rest) = Ok (pre ++ ds ++ "s" ++ rest).
Proof.
  intros m pre ds rest Hm H1 H2 Hr.
  rewrite (re_sub_skip m pre _ H1). rewrite (string_app_assoc ds "s" rest).
  rewrite (re_sub_skip m _ _ H2). rewrite (re_sub_no_digit m Hm rest Hr). cbn [bind].
  rewrite <- (string_app_assoc ds "s" rest). reflexivity.
Qed.

(** With conversion enabled, a run of one to three digits followed by
    [s] (and not by [st]), not preceded by [$], in a text without other
    digits is handled by step 6 as one match [\d+s]: when it is a decade ([\d0s]) it becomes the
    words of the decade with [y] replaced by [ie], plus [s]; otherwise
    [int()] fails on the [s] and [replace_numbers] raises [ValueError]. *)
Theorem replace_numbers_plural : forall pre ds rest,
  has_digit pre = false -> (forall p, pre <> (p ++ "$")%string) ->
  digit_group ds -> (String.length ds <= 3)%nat ->
  has_digit rest = false -> (forall r, rest <> String "t" r) ->
  replace_numbers (pre ++ ds ++ "s" ++ rest) true =
    if is_decade (ds ++ "s")
    then w <- Inflect.number_to_words (digits_value ds) ;; Ok (pre ++ replace_y w ++ "s" ++ rest)
    else Err ValueError.
Proof.
  intros pre ds rest Hp Hd Hds Hl Hr Ht.
  assert (Hdr : has_digit (ds ++ "s" ++ rest) = true).
  { destruct Hds as [Hne Hdd]. destruct ds as [|c t]; [contradiction|].
    simpl. rewrite (Hdd c (or_introl eq_refl)). reflexivity. }
  assert (Hp1 : forall m, fires_at_digit m -> skips m pre (ds ++ "s" ++ rest))
    by (intros m Hm; apply skips_fires; assumption).
  assert (Hs : forall m, In m [m_percentage_range; m_percentages; m_ordinal_numbers; m_currency; m_four_digit] ->
                 skips m (ds ++ "s") rest) by (apply skips_plural; assumption).
  unfold replace_numbers. cbn [negb].
  rewrite (pass_keeps_plural _ _ _ _ needs_digit_percentage_range
             (Hp1 _ fires_percentage_range) (Hs m_percentage_range ltac:(simpl; tauto)) Hr). cbn [bind].
  rewrite (pass_keeps_plural _ _ _ _ needs_digit_percentages
             (Hp1 _ fires_percentages) (Hs m_percentages ltac:(simpl; tauto)) Hr). cbn [bind].
  rewrite (pass_keeps_plural _ _ _ _ needs_digit_ordinal_numbers
             (Hp1 _ fires_ordinal_numbers) (Hs m_ordinal_numbers ltac:(simpl; tauto)) Hr). cbn [bind].
  rewrite (pass_keeps_plural _ _ _ _ needs_digit_currency
             (skips_currency _ _ Hp Hd) (Hs m_currency ltac:(simpl; tauto)) Hr). cbn [bind].
  rewrite (pass_keeps_plural _ _ _ _ needs_digit_four_digit
             (Hp1 _ fires_four_digit) (Hs m_four_digit ltac:(simpl; tauto)) Hr). cbn [bind].
  rewrite (re_sub_skip m_number pre _ (Hp1 _ fires_number)).
  assert (E6 : re_sub m_number (ds ++ "s" ++ rest)
               = (x <- replace_number_match (ds ++ "s") ;; Ok (x ++ rest))).
  { unfold re_sub. destruct ds as [|c t]; [destruct Hds; contradiction|].
    change (String c t ++ "s" ++ rest)%string with (String c (t ++ "s" ++ rest)).
    cbn [String.length sub_scan].
    change (String c (t ++ "s" ++ rest)) with (String c t ++ "s" ++ rest)%string.
    rewrite (m_number_plural _ _ Hds).
    rewrite (sub_scan_no_digit m_number needs_digit_number _ rest Hr).
    destruct (replace_number_match (String c t ++ "s")); reflexivity. }
  rewrite E6. unfold replace_number_match.
  destruct (is_decade (ds ++ "s")) eqn:Ed.
  - rewrite (is_decade_plural ds Ed).
    destruct (Inflect.number_to_words (digits_value ds)); [|reflexivity].
    cbn [bind]. rewrite <- string_app_assoc. reflexivity.
  - rewrite (py_int_plural ds Hds). reflexivity.
Qed.

Lemma replace_numbers_plural_witness :
  replace_numbers "in the 80s." true = Ok "in the eighties." /\
  replace_numbers "wait 5s." true = Err ValueError.
Proof.
  split.
  - refine (eq_trans (replace_numbers_plural "in the " "80" "." _ _ _ _ _ _) _).
    + reflexivity.
    + intros [|c p] H; [discriminate|]. repeat (destruct p as [|? p]; try discriminate).
    + split; [discriminate|apply forall_chars_b; reflexivity].
    + simpl; lia.
    + reflexivity.
    + intros r; discriminate.
    + vm_compute. reflexivity.
  - refine (eq_trans (replace_numbers_plural "wait " "5" "." _ _ _ _ _ _) _).
    + reflexivity.
    + intros [|c p] H; [discriminate|]. repeat (destruct p as [|? p]; try discriminate).
    + split; [discriminate|apply forall_chars_b; reflexivity].
    + simpl; lia.
    + reflexivity.
    + intros r; discriminate.
    + reflexivity.
Defined.

(** ** C3: the currency pass in context *)

Lemma forall_chars_suffix : forall p a b, forall_chars p (a ++ b) -> forall_chars p b.
Proof. intros p a b H. apply forall_chars_app in H. apply H. Qed.

(** The passes 1-3 never match inside a digit run [ds] followed by a text
    [rest] that starts with neither a digit, nor [%], nor an ordinal
    suffix. *)
Lemma skips_run : forall ds rest, forall_chars is_digit ds -> has_digit rest = false ->
  (forall r, rest <> String "%" r) ->
  (forall a b r, rest = String a (String b r) -> is_ord_suffix a b = false) ->
  forall m, In m [m_percentage_range; m_percentages; m_ordinal_numbers] -> skips m ds rest.
Proof.
  intros ds rest Hd Hr Hpc Hord m Hin a b E Hb.
  assert (Hb' : forall_chars is_digit b) by (subst ds; exact (forall_chars_suffix _ _ _ Hd)).
  assert (Hs : span_digits (b ++ rest) = (b, rest)).
  { apply span_app_stop; [exact Hb'|]. destruct rest as [|c r]; [exact I|].
    cbn [has_digit] in Hr. apply orb_false_iff in Hr as [Hc _]. exact Hc. }
  assert (Hpct : forall c r, rest = String c r -> Ascii.eqb c "%"%char = false).
  { intros c r ->. destruct (Ascii.eqb_spec c "%"%char) as [->|]; [|reflexivity].
    exfalso. exact (Hpc r eq_refl). }
  simpl in Hin. destruct Hin as [<-|[<-|[<-|[]]]].
  - unfold m_percentage_range. rewrite Hs. cbv beta iota.
    destruct (String.eqb b ""); [reflexivity|].
    destruct rest as [|c r]; [reflexivity|].
    unfold starts_with. cbn [String.prefix].
    destruct (ascii_dec "%" c) as [<-|]; [|reflexivity].
    exfalso. exact (Hpc r eq_refl).
  - unfold m_percentages. rewrite Hs. cbv beta iota.
    destruct (String.eqb b ""); [reflexivity|].
    destruct rest as [|c r]; [reflexivity|]. rewrite (Hpct c r eq_refl). reflexivity.
  - unfold m_ordinal_numbers. rewrite Hs. cbv beta iota.
    destruct (String.eqb b ""); [reflexivity|].
    destruct rest as [|c [|c2 r]]; [reflexivity|reflexivity|].
    rewrite (Hord c c2 r eq_refl). reflexivity.
Qed.

(** The currency pass never matches inside a text without digits when a
    [$] follows it. *)
Lemma skips_currency_dollar : forall pre X, has_digit pre = false ->
  skips m_currency pre (String "$" X).
Proof.
  intros pre X Hp a [|c b] E Hb; [contradiction|].
  change (m_currency (String c (b ++ String "$" X)) = None). unfold m_currency.
  destruct (Ascii.eqb_spec c "$"%char) as [->|]; [|reflexivity].
  destruct b as [|c' b].
  - reflexivity.
  - subst pre. rewrite has_digit_app in Hp. apply orb_false_iff in Hp as [_ Hp].
    cbn [has_digit] in Hp. apply orb_false_iff in Hp as [_ Hp].
    apply orb_false_iff in Hp as [Hc' _].
    change (String c' b ++ String "$" X)%string with (String c' (b ++ String "$" X)).
    rewrite (span_digits_nondigit c' _ Hc'). reflexivity.
Qed.

(** The currency pass does not match at a position of [pre] when no [$] of
    [pre] is followed, in [pre ++ "$" ++ s], by a digit. *)
Lemma skips_currency_pre : forall pre s,
  (forall a c b, pre = (a ++ String "$" (String c b))%string -> is_digit c = false) ->
  skips m_currency pre (String "$" s).
Proof.
  intros pre s Hp a [|c b] E Hb; [contradiction|].
  change (m_currency (String c (b ++ String "$" s)) = None). unfold m_currency.
  destruct (Ascii.eqb_spec c "$"%char) as [->|]; [|reflexivity].
  destruct b as [|c' b]; [reflexivity|].
  change (String c' b ++ String "$" s)%string with (String c' (b ++ String "$" s)).
  rewrite (span_digits_nondigit c' _ (Hp a c' b E)). reflexivity.
Qed.

(** A pass that matches neither in [pre] nor in [mid] leaves
    [pre ++ mid ++ rest] as it is when [rest] has no digit. *)
Lemma pass_keeps : forall m pre mid rest, needs_digit m ->
  skips m pre (mid ++ rest) -> skips m mid rest -> has_digit rest = false ->
  re_sub m (pre ++ mid ++ rest) = Ok (pre ++ mid ++ rest).
Proof.
  intros m pre mid rest Hm H1 H2 Hr.
  rewrite (re_sub_skip m pre _ H1), (re_sub_skip m _ _ H2), (re_sub_no_digit m Hm rest Hr).
  reflexivity.
Qed.

Lemma pass_keeps_tail : forall m mid rest, needs_digit m ->
  skips m mid rest -> has_digit rest = false -> re_sub m (mid ++ rest) = Ok (mid ++ rest).
Proof.
  intros m mid rest Hm H Hr. rewrite (re_sub_skip m mid _ H), (re_sub_no_digit m Hm rest Hr).
  reflexivity.
Qed.

(** [\d{4}] does not match inside a run of at most three digits followed by
    a space. *)
Lemma skips_four_short : forall ds rest, forall_chars is_digit ds ->
  (String.length ds <= 3)%nat -> skips m_four_digit ds (" " ++ rest).
Proof.
  intros ds rest Hd Hl a b E Hb.
  assert (Hlb : (String.length b <= 3)%nat) by (subst ds; rewrite str_length_app in Hl; lia).
  destruct (m_four_digit (b ++ " " ++ rest)) eqn:E4; [|reflexivity].
  apply four_digit_some in E4 as (a1 & a2 & a3 & a4 & r & Es & H4).
  destruct b as [|x1 [|x2 [|x3 [|x4 b]]]]; simpl in Hlb, Es;
    [| | | | lia]; inversion Es; subst;
    change (is_digit " "%char) with false in H4;
    rewrite ?andb_false_r, ?andb_false_l in H4; discriminate H4.
Qed.

Lemma re_sub_four_at : forall a1 a2 a3 a4 X, has_digit X = false ->
  is_digit a1 && is_digit a2 && is_digit a3 && is_digit a4 = true ->
  re_sub m_four_digit (String a1 (String a2 (String a3 (String a4 X))))
  = (w <- four_digit_number (digits_value (String a1 (String a2 (String a3 (String a4 EmptyString))))) ;;
     Ok (w ++ X)).
Proof.
  intros a1 a2 a3 a4 X HX H4. unfold re_sub.
  change (String.length (String a1 (String a2 (String a3 (String a4 X)))))
    with (S (3 + String.length X)).
  cbn [sub_scan]. unfold m_four_digit at 1. rewrite H4. cbv beta iota.
  destruct (four_digit_number _); cbn [bind]; [|reflexivity].
  rewrite (sub_scan_no_digit m_four_digit needs_digit_four_digit _ X HX). reflexivity.
Qed.

Lemma is_decade_digits : forall ds, forall_chars is_digit ds -> is_decade ds = false.
Proof.
  intros [|a [|b [|c [|d ds]]]] H; try reflexivity.
  unfold is_decade.
  assert (Hc : is_digit c = true) by (apply H; right; right; left; reflexivity).
  destruct (Ascii.eqb_spec c "s"%char) as [->|]; [discriminate Hc|].
  rewrite andb_false_r. reflexivity.
Qed.

Lemma re_sub_number_run : forall ds X, digit_group ds ->
  (String.length ds <= int_max_str_digits)%nat -> has_digit X = false ->
  (forall r, X <> String "s" r) ->
  re_sub m_number (ds ++ X) = (w <- Inflect.number_to_words (digits_value ds) ;; Ok (w ++ X)).
Proof.
  intros ds X Hds Hl HX Hs.
  assert (Hsp : span_digits (ds ++ X) = (ds, X)).
  { apply span_app_stop; [apply Hds|]. destruct X as [|c r]; [exact I|].
    cbn [has_digit] in HX. apply orb_false_iff in HX as [Hc _]. exact Hc. }
  assert (Hm : m_number (ds ++ X) = Some (replace_number_match ds, X)).
  { unfold m_number. rewrite Hsp. cbv beta iota.
    destruct (String.eqb_spec ds "") as [|_]; [destruct Hds; contradiction|].
    destruct X as [|c r]; [reflexivity|].
    destruct (Ascii.eqb_spec c "s"%char) as [->|]; [exfalso; exact (Hs r eq_refl)|reflexivity]. }
  assert (Hr : replace_number_match ds = Inflect.number_to_words (digits_value ds)).
  { unfold replace_number_match. rewrite (is_decade_digits ds (proj2 Hds)).
    rewrite (py_int_digits ds Hds Hl), N2Z.id. reflexivity. }
  unfold re_sub. destruct ds as [|c t]; [destruct Hds; contradiction|].
  change (String c t ++ X)%string with (String c (t ++ X)) in *.
  cbn [String.length sub_scan]. rewrite Hm, Hr.
  rewrite (sub_scan_no_digit m_number needs_digit_number _ X HX).
  destruct (Inflect.number_to_words _); reflexivity.
Qed.

(** C3 (amended): at a [$] followed by a maximal digit run [ds], after a
    text [pre] in which no [$] is followed by a digit, the currency pass
    writes [ds ++ " dollars"] and goes on after the run: the [$] is dropped
    and the digits are kept.  The later passes turn the kept digits into
    words: in a text [pre ++ "$" ++ ds ++ rest] where [pre] and [rest] have
    no digit and [rest] starts with neither [%] nor an ordinal suffix, an
    amount of one to three digits becomes its cardinal words (step 6) and
    one of four digits its year-style words (step 5), followed by
    " dollars"; and whenever [replace_numbers] returns, no digit is left.
    The replacements of the percentage-range, percentage, ordinal and
    four-digit passes contain no digit, so the digits those passes consume
    never reach step 6. *)
Theorem currency_pass_and_digit_free_replacements :
  (forall pre s ds rest,
     (forall a c b, pre = (a ++ String "$" (String c b))%string -> is_digit c = false) ->
     span_digits s = (ds, rest) -> ds <> EmptyString ->
     re_sub m_currency (pre ++ "$" ++ s)
       = (y <- re_sub m_currency rest ;; Ok (pre ++ ds ++ " dollars" ++ y))) /\
  (forall pre ds rest,
     has_digit pre = false -> digit_group ds -> (String.length ds <= 4)%nat ->
     has_digit rest = false -> (forall r, rest <> String "%" r) ->
     (forall a b r, rest = String a (String b r) -> is_ord_suffix a b = false) ->
     replace_numbers (pre ++ "$" ++ ds ++ rest) true
       = (w <- (if (String.length ds =? 4)%nat then four_digit_number (digits_value ds)
                else Inflect.number_to_words (digits_value ds)) ;;
          Ok (pre ++ w ++ " dollars" ++ rest))) /\
  (forall t u, replace_numbers t true = Ok u -> has_digit u = false) /\
  (forall m, In m [m_percentage_range; m_percentages; m_ordinal_numbers; m_four_digit] ->
     forall s r rest w, m s = Some (r, rest) -> r = Ok w -> has_digit w = false).
Proof.
  split; [|split; [|split]].
  - intros pre s ds rest Hp E Hne.
    change ("$" ++ s)%string with (String "$" s).
    rewrite (re_sub_skip m_currency pre _ (skips_currency_pre pre s Hp)).
    rewrite (re_sub_currency_at s ds rest E Hne).
    destruct (re_sub m_currency rest); reflexivity.
  - intros pre ds rest Hp Hds Hl Hr Hpc Hord.
    set (pre' := (pre ++ "$")%string).
    assert (Hp' : has_digit pre' = false) by (apply no_digit_app; [exact Hp|reflexivity]).
    assert (E0 : (pre ++ "$" ++ ds ++ rest)%string = (pre' ++ ds ++ rest)%string)
      by (unfold pre'; rewrite <- string_app_assoc; reflexivity).
    assert (Hrun : forall m, In m [m_percentage_range; m_percentages; m_ordinal_numbers] ->
                     skips m ds rest) by (apply skips_run; [apply Hds|assumption..]).
    unfold replace_numbers. cbn [negb]. rewrite E0.
    rewrite (pass_keeps _ _ _ _ needs_digit_percentage_range
               (skips_fires _ _ _ fires_percentage_range Hp')
               (Hrun m_percentage_range ltac:(simpl; tauto)) Hr). cbn [bind].
    rewrite (pass_keeps _ _ _ _ needs_digit_percentages
               (skips_fires _ _ _ fires_percentages Hp')
               (Hrun m_percentages ltac:(simpl; tauto)) Hr). cbn [bind].
    rewrite (pass_keeps _ _ _ _ needs_digit_ordinal_numbers
               (skips_fires _ _ _ fires_ordinal_numbers Hp')
               (Hrun m_ordinal_numbers ltac:(simpl; tauto)) Hr). cbn [bind].
    rewrite <- E0.
    assert (Hsp : span_digits (ds ++ rest) = (ds, rest)).
    { apply span_app_stop; [apply Hds|]. destruct rest as [|c r]; [exact I|].
      cbn [has_digit] in Hr. apply orb_false_iff in Hr as [Hc _]. exact Hc. }
    change ("$" ++ ds ++ rest)%string with (String "$" (ds ++ rest)).
    rewrite (re_sub_skip m_currency pre _ (skips_currency_dollar pre _ Hp)).
    rewrite (re_sub_currency_at _ ds rest Hsp (proj1 Hds)).
    rewrite (re_sub_no_digit m_currency needs_digit_currency rest Hr). cbn [bind].
    assert (Hdr : has_digit (" dollars" ++ rest) = false) by (apply no_digit_app; [reflexivity|exact Hr]).
    rewrite (re_sub_skip m_four_digit pre _ (skips_fires _ _ _ fires_four_digit Hp)).
    destruct (Nat.eqb_spec (String.length ds) 4) as [L4|L4].
    + destruct Hds as [Hne Hdd].
      destruct ds as [|a1 [|a2 [|a3 [|a4 [|a5 ds]]]]]; simpl in L4; try discriminate.
      assert (H4 : is_digit a1 && is_digit a2 && is_digit a3 && is_digit a4 = true).
      { rewrite !andb_true_iff. repeat split; apply Hdd; simpl; tauto. }
      change (String a1 (String a2 (String a3 (String a4 EmptyString))) ++ " dollars" ++ rest)%string
        with (String a1 (String a2 (String a3 (String a4 (" dollars" ++ rest))))).
      rewrite (re_sub_four_at a1 a2 a3 a4 _ Hdr H4).
      destruct (four_digit_number _) as [w|e] eqn:Ew; cbn [bind]; [|reflexivity].
      rewrite (re_sub_no_digit m_number needs_digit_number).
      * reflexivity.
      * repeat apply no_digit_app; [exact Hp|eapply four_digit_number_no_digit; exact Ew|reflexivity|exact Hr].
    + assert (L3 : (String.length ds <= 3)%nat) by lia.
      rewrite (pass_keeps_tail m_four_digit ds (" dollars" ++ rest) needs_digit_four_digit
                 (skips_four_short ds _ (proj2 Hds) L3) Hdr). cbn [bind].
      rewrite (re_sub_skip m_number pre _ (skips_fires _ _ _ fires_number Hp)).
      rewrite (re_sub_number_run ds _ Hds ltac:(unfold int_max_str_digits; lia) Hdr
                 ltac:(intros r; discriminate)).
      destruct (Inflect.number_to_words _); reflexivity.
  - exact replace_numbers_no_digit_out.
  - exact replacements_no_digit.
Qed.

Lemma currency_pass_and_digit_free_replacements_witness :
  re_sub m_currency "pay $25 now" = Ok "pay 25 dollars now" /\
  replace_numbers "pay $25 now" true = Ok "pay twenty-five dollars now" /\
  replace_numbers "pay $2025." true = Ok "pay twenty twenty-five dollars." .
Proof.
  split; [|split].
  - refine (eq_trans (proj1 currency_pass_and_digit_free_replacements "pay " "25 now" "25" " now"
                        _ eq_refl ltac:(discriminate)) _).
    + intros [|c a] c' b E; [discriminate|].
      repeat (destruct a as [|? a]; try discriminate).
    + reflexivity.
  - refine (eq_trans (proj1 (proj2 currency_pass_and_digit_free_replacements) "pay " "25" " now"
                        eq_refl _ _ eq_refl _ _) _).
    + split; [discriminate|apply forall_chars_b; reflexivity].
    + simpl; lia.
    + intros r; discriminate.
    + intros a b r E. injection E as <- <- _. reflexivity.
    + vm_compute. reflexivity.
  - refine (eq_trans (proj1 (proj2 currency_pass_and_digit_free_replacements) "pay " "2025" "."
                        eq_refl _ _ eq_refl _ _) _).
    + split; [discriminate|apply forall_chars_b; reflexivity].
    + simpl; lia.
    + intros r; discriminate.
    + intros a b r E. discriminate.
    + vm_compute. reflexivity.
Defined.

(** ** [write_csv] (lines 30-35) and Python's [csv.writer]

    [csv.writer(file)] with the default [excel] dialect: delimiter [,],
    quote character [dquote] (code 34), [doublequote=True], [QUOTE_MINIMAL],
    line terminator [\r\n] and no escape character.  A field is quoted when
    it contains the delimiter, the quote character or a character of the
    line terminator, and its quote characters are doubled; a row made of
    one empty field is written as two quote characters.  The file is opened
    with [newline=''], so the terminator is written as is. *)

Definition dquote : ascii := "034"%char.
Definition cr : ascii := "013"%char.
Definition lf : ascii := "010"%char.

Definition csv_special (c : ascii) : bool :=
  Ascii.eqb c "," || Ascii.eqb c dquote || Ascii.eqb c cr || Ascii.eqb c lf.

Fixpoint double_quotes (s : string) : string :=
  match s with
  | EmptyString => EmptyString
  | String c s' =>
      if Ascii.eqb c dquote then String c (String c (double_quotes s'))
      else String c (double_quotes s')
  end.

Definition csv_field (field : string) : string :=
  if existsb csv_special (list_ascii_of_string field)
  then String dquote (double_quotes field ++ String dquote EmptyString)
  else field.

(** [writer.writerow(fields)] *)
Definition csv_row (fields : list string) : string :=
  let rec := join "," (map csv_field fields) in
  ((if String.eqb rec EmptyString && negb (Nat.eqb (length fields) 0)
    then String dquote (String dquote EmptyString) else rec)
   ++ String cr (String lf EmptyString))%string.

(** [writer.writerows(rows)] *)
Fixpoint writerows (rows : list (list string)) : string :=
  match rows with
  | [] => EmptyString
  | r :: rs => (csv_row r ++ writerows rs)%string
  end.

Definition csv_header : list string :=
  ["Timestamp"; "Original Subtitle"; "Processed Subtitle"].

Definition change_row (r : ChangeRecord) : list string :=
  [timestamp r; originalText r; processedText r].

(** The text [write_csv changes_list csv_file_path] writes to the file. *)
Definition write_csv (changes_list : list ChangeRecord) : string :=
  (csv_row csv_header ++ writerows (map change_row changes_list))%string.

(** A reader of the CSV format (RFC 4180): fields separated by [,], rows
    ended by [\r\n], a field either unquoted (no [,], [\r] or [\n]) or
    quoted, with doubled quote characters inside. *)
Definition unquoted_char (c : ascii) : bool :=
  negb (Ascii.eqb c "," || Ascii.eqb c cr || Ascii.eqb c lf).

Fixpoint read_quoted (s : string) : option (string * string) :=
  match s with
  | EmptyString => None
  | String c s' =>
      if Ascii.eqb c dquote then
        match s' with
        | String c2 s'' =>
            if Ascii.eqb c2 dquote then
              match read_quoted s'' with
              | Some (f, r) => Some (String dquote f, r)
              | None => None
              end
            else Some (EmptyString, s')
        | EmptyString => Some (EmptyString, EmptyString)
        end
      else match read_quoted s' with
           | Some (f, r) => Some (String c f, r)
           | None => None
           end
  end.

Definition read_field (s : string) : option (string * string) :=
  match s with
  | String c s' => if Ascii.eqb c dquote then read_quoted s' else Some (span unquoted_char s)
  | EmptyString => Some (EmptyString, EmptyString)
  end.

Fixpoint read_row (fuel : nat) (s : string) : option (list string * string) :=
  match fuel with
  | O => None
  | S n =>
      match read_field s with
      | Some (f, String c r) =>
          if Ascii.eqb c "," then
            match read_row n r with
            | Some (fs, r') => Some (f :: fs, r')
            | None => None
            end
          else if Ascii.eqb c cr then
            match r with
            | String c' r' => if Ascii.eqb c' lf then Some ([f], r') else None
            | EmptyString => None
            end
          else None
      | Some (f, EmptyString) => Some ([f], EmptyString)
      | None => None
      end
  end.

Fixpoint read_rows (fuel : nat) (s : string) : option (list (list string)) :=
  match fuel with
  | O => None
  | S n =>
      match s with
      | EmptyString => Some []
      | String _ _ =>
          match read_row (String.length s) s with
          | Some (row, r) =>
              match read_rows n r with
              | Some rows => Some (row :: rows)
              | None => None
              end
          | None => None
          end
      end
  end.

Definition read_csv (s : string) : option (list (list string)) :=
  read_rows (S (String.length s)) s.

Lemma read_quoted_double : forall f rest,
  (match rest with String c _ => Ascii.eqb c dquote = false | EmptyString => True end) ->
  read_quoted (double_quotes f ++ String dquote rest) = Some (f, rest).
Proof.
  induction f as [|c f IH]; intros rest Hr.
  - destruct rest as [|c2 r]; [reflexivity|].
    simpl. rewrite Hr. reflexivity.
  - simpl double_quotes. destruct (Ascii.eqb_spec c dquote) as [->|Hc].
    + simpl. rewrite IH by exact Hr. reflexivity.
    + simpl. destruct (Ascii.eqb_spec c dquote) as [|_]; [contradiction|].
      rewrite IH by exact Hr. reflexivity.
Qed.

Lemma csv_special_false : forall c, csv_special c = false ->
  unquoted_char c = true /\ Ascii.eqb c dquote = false.
Proof.
  intros c H. unfold csv_special in H. unfold unquoted_char.
  repeat rewrite orb_false_iff in H. destruct H as [[[H1 H2] H3] H4].
  rewrite H1, H3, H4, H2. split; reflexivity.
Qed.

Lemma existsb_special_false : forall f, existsb csv_special (list_ascii_of_string f) = false ->
  forall_chars unquoted_char f /\ forall_chars (fun c => negb (Ascii.eqb c dquote)) f.
Proof.
  intros f H.
  assert (Hs : forall c, In c (list_ascii_of_string f) -> csv_special c = false).
  { intros c Hc. destruct (csv_special c) eqn:E; [|reflexivity].
    rewrite <- H. symmetry. apply existsb_exists. exists c. split; assumption. }
  split; intros c Hc; destruct (csv_special_false c (Hs c Hc)) as [H1 H2].
  - exact H1.
  - rewrite H2. reflexivity.
Qed.

(** What may follow a field in a row. *)
Definition field_end (rest : string) : Prop :=
  match rest with
  | String c _ => c = ","%char \/ c = cr
  | EmptyString => True
  end.

Lemma read_field_csv_field : forall f rest, field_end rest ->
  read_field (csv_field f ++ rest) = Some (f, rest).
Proof.
  intros f rest Hr. unfold csv_field.
  destruct (existsb csv_special (list_ascii_of_string f)) eqn:Ef.
  - change (String dquote (double_quotes f ++ String dquote EmptyString) ++ rest)%string
      with (String dquote ((double_quotes f ++ String dquote EmptyString) ++ rest)).
    rewrite <- string_app_assoc. simpl read_field.
    apply read_quoted_double.
    destruct rest as [|c r]; [exact I|]. destruct Hr as [->| ->]; reflexivity.
  - destruct (existsb_special_false f Ef) as [Hu Hq].
    assert (Hstop : match rest with String c _ => unquoted_char c = false | EmptyString => True end)
      by (destruct rest as [|c r]; [exact I|destruct Hr as [->| ->]; reflexivity]).
    destruct f as [|c f].
    + destruct rest as [|c r]; [reflexivity|].
      destruct Hr as [->| ->]; reflexivity.
    + change (String c f ++ rest)%string with (String c (f ++ rest)). unfold read_field.
      assert (Hc := Hq c (or_introl eq_refl)). apply negb_true_iff in Hc. rewrite Hc.
      change (String c (f ++ rest)) with (String c f ++ rest)%string.
      rewrite (span_app_stop _ _ _ Hu Hstop). reflexivity.
Qed.

Lemma read_row_join : forall fs n rest, fs <> [] -> (length fs <= n)%nat ->
  read_row n (join "," (map csv_field fs) ++ String cr (String lf rest)) = Some (fs, rest).
Proof.
  induction fs as [|f fs IH]; intros n rest Hne Hn; [contradiction|].
  destruct n as [|n]; [simpl in Hn; lia|].
  destruct fs as [|g fs].
  - cbn [map join read_row].
    rewrite (read_field_csv_field f (String cr (String lf rest)) (or_intror eq_refl)). reflexivity.
  - change (join "," (map csv_field (f :: g :: fs)))
      with (csv_field f ++ "," ++ join "," (map csv_field (g :: fs)))%string.
    rewrite <- string_app_assoc. cbn [read_row].
    change ((String "," EmptyString ++ join "," (map csv_field (g :: fs))) ++ String cr (String lf rest))%string
      with (String "," (join "," (map csv_field (g :: fs)) ++ String cr (String lf rest))).
    rewrite (read_field_csv_field f (String "," (join "," (map csv_field (g :: fs)) ++ String cr (String lf rest))) (or_introl eq_refl)).
    cbv beta iota. change (Ascii.eqb "," ",") with true. cbv iota.
    rewrite IH; [reflexivity|discriminate|simpl in Hn |- *; lia].
Qed.

Lemma join_csv_empty : forall fs, join "," (map csv_field fs) = EmptyString ->
  fs = [] \/ fs = [EmptyString].
Proof.
  intros [|f [|g fs]] H; [left; reflexivity| |].
  - right. cbn [map join] in H. unfold csv_field in H.
    destruct (existsb _ _); [discriminate|subst; reflexivity].
  - exfalso. cbn [map join] in H. apply (f_equal String.length) in H.
    rewrite str_length_app in H. simpl in H. lia.
Qed.

Lemma join_length : forall xs, (length xs <= String.length (join "," xs) + 1)%nat.
Proof.
  induction xs as [|x [|y xs] IH]; [simpl; lia|simpl; lia|].
  change (join "," (x :: y :: xs)) with (x ++ "," ++ join "," (y :: xs))%string.
  rewrite !str_length_app. simpl in IH |- *. lia.
Qed.

Lemma csv_row_length : forall fs, (length fs + 1 <= String.length (csv_row fs))%nat.
Proof.
  intros fs. unfold csv_row. rewrite str_length_app.
  assert (H := join_length (map csv_field fs)). rewrite length_map in H.
  destruct (String.eqb_spec (join "," (map csv_field fs)) EmptyString) as [E|E].
  - destruct (join_csv_empty fs E) as [-> | ->]; simpl; lia.
  - simpl; lia.
Qed.

Lemma read_row_csv_row : forall fs n rest, fs <> [] -> (length fs <= n)%nat ->
  read_row n (csv_row fs ++ rest) = Some (fs, rest).
Proof.
  intros fs n rest Hne Hn. unfold csv_row. rewrite <- string_app_assoc.
  change (String cr (String lf EmptyString) ++ rest)%string with (String cr (String lf rest)).
  destruct (String.eqb_spec (join "," (map csv_field fs)) EmptyString) as [E|E].
  - destruct (join_csv_empty fs E) as [->| ->]; [contradiction|].
    destruct n as [|n]; [simpl in Hn; lia|]. reflexivity.
  - simpl andb. cbv iota. apply read_row_join; assumption.
Qed.

Lemma writerows_length : forall rows, (length rows <= String.length (writerows rows))%nat.
Proof.
  induction rows as [|r rs IH]; [simpl; lia|].
  simpl writerows. rewrite str_length_app. assert (H := csv_row_length r). simpl; lia.
Qed.

Lemma read_rows_writerows : forall rows n, Forall (fun r => r <> []) rows ->
  (length rows < n)%nat -> read_rows n (writerows rows) = Some rows.
Proof.
  induction rows as [|r rs IH]; intros n Hne Hn.
  - destruct n as [|n]; [simpl in Hn; lia|reflexivity].
  - destruct n as [|n]; [simpl in Hn; lia|]. inversion Hne as [|? ? Hr Hrs]; subst.
    cbn [writerows read_rows].
    assert (Hl := csv_row_length r). assert (Hw := writerows_length rs).
    destruct (csv_row r ++ writerows rs)%string as [|c s] eqn:Es.
    + apply (f_equal String.length) in Es. rewrite str_length_app in Es. simpl in Es. lia.
    + rewrite <- Es. rewrite read_row_csv_row; [|exact Hr|].
      * rewrite IH; [reflexivity|exact Hrs|simpl in Hn; lia].
      * rewrite str_length_app. lia.
Qed.

(** The text [write_csv] writes reads back, under the CSV format, as the
    header row followed by one row [timestamp, original text, processed
    text] per record, in order, each field exactly as recorded, whatever
    commas, quote characters or line breaks the subtitles contain (the
    timestamps, which contain a comma, are written quoted). *)
Theorem write_csv_read_back : forall changes_list,
  read_csv (write_csv changes_list) = Some (csv_header :: map change_row changes_list).
Proof.
  intros cl. unfold read_csv, write_csv.
  change (csv_row csv_header ++ writerows (map change_row cl))%string
    with (writerows (csv_header :: map change_row cl)).
  apply read_rows_writerows.
  - constructor; [discriminate|]. apply Forall_forall. intros r Hr.
    apply in_map_iff in Hr as [x [<- _]]. discriminate.
  - assert (H := writerows_length (csv_header :: map change_row cl)). lia.
Qed.
